(** * musifyx-api-flask: the download adapter of [app.py]

    A shallow embedding of the three download handlers of [app.py]
    ([download_song], [download_album], [download_playlist]) and of
    [sanitize_filename], with the statements of the specification proved
    about them.

    Python values are modelled as follows.
    - A [str] is the list of its Unicode code points ([pystr]).
    - A filesystem path is the list of its components from the root
      ([path]); [os.path.join] with a directory-entry name appends one
      component.
    - The filesystem, the logger, the supply of temporary names and the
      record of provider calls form the [world] a handler runs in; a
      handler is a function from a world to a response and a world.
    - A raised exception is carried by the [Raise] outcome of the monad
      [M]; [try ... except Exception] is [try_except].

    The provider client [deezer] is not in the repository and is a
    parameter of the handlers here: any function that changes the
    filesystem and returns or raises. The filesystem has the errors of
    a POSIX system for a missing, an existing or a wrong kind of entry,
    and no bound on the length of a name or of a path: a call that
    succeeds here on a name of more than 255 bytes fails on such a
    system. No statement below draws the success of a filesystem call on
    arbitrary names from the model alone. *)

From Stdlib Require Import List NArith Bool Lia Ascii String DecimalString.
Import ListNotations.

Local Open Scope N_scope.
Local Open Scope list_scope.

Local Abbreviation length := Datatypes.length.

#[local] Set Warnings "-register-all".

(** ** Strings *)

Definition pystr := list N.

(** An ASCII literal as a Python string. *)
Definition lit (s : string) : pystr := map N_of_ascii (list_ascii_of_string s).

Fixpoint str_eqb (a b : pystr) : bool :=
  match a, b with
  | [], [] => true
  | x :: a', y :: b' => (x =? y) && str_eqb a' b'
  | _, _ => false
  end.

(** [s in l] for a list of strings. *)
Definition str_in (s : pystr) (l : list pystr) : bool := existsb (str_eqb s) l.

(** [s.endswith(suffix)] *)
Definition endswith (s suffix : pystr) : bool :=
  str_eqb (skipn (length s - length suffix)%nat s) suffix.

(** [s.endswith((a, b, ...))] *)
Definition endswith_any (s : pystr) (suffixes : list pystr) : bool :=
  existsb (endswith s) suffixes.

(** [sep.join(l)] *)
Fixpoint str_join (sep : pystr) (l : list pystr) : pystr :=
  match l with
  | [] => []
  | [x] => x
  | x :: rest => x ++ sep ++ str_join sep rest
  end.

(** [str(n)] for a non-negative integer. *)
Definition str_of_N (n : N) : pystr := lit (NilZero.string_of_uint (N.to_uint n)).

(** [str(l)] for a list of strings that hold no quote, backslash or
    non-printable character (their [repr] is the text in single quotes). *)
Definition str_of_list (l : list pystr) : pystr :=
  lit "[" ++ str_join (lit ", ") (map (fun s => lit "'" ++ s ++ lit "'") l) ++ lit "]".

(** *** [str.isdigit]

    A character is a digit when its Unicode property Numeric_Type is
    Digit or Decimal. The table is the one of Unicode 14.0 (CPython 3.11),
    as inclusive ranges of code points. *)
Definition digit_ranges : list (N * N) :=
  [ (48, 57); (178, 179); (185, 185); (1632, 1641); (1776, 1785);
    (1984, 1993); (2406, 2415); (2534, 2543); (2662, 2671); (2790, 2799);
    (2918, 2927); (3046, 3055); (3174, 3183); (3302, 3311); (3430, 3439);
    (3558, 3567); (3664, 3673); (3792, 3801); (3872, 3881); (4160, 4169);
    (4240, 4249); (4969, 4977); (6112, 6121); (6160, 6169); (6470, 6479);
    (6608, 6618); (6784, 6793); (6800, 6809); (6992, 7001); (7088, 7097);
    (7232, 7241); (7248, 7257); (8304, 8304); (8308, 8313); (8320, 8329);
    (9312, 9320); (9332, 9340); (9352, 9360); (9450, 9450); (9461, 9469);
    (9471, 9471); (10102, 10110); (10112, 10120); (10122, 10130);
    (42528, 42537); (43216, 43225); (43264, 43273); (43472, 43481);
    (43504, 43513); (43600, 43609); (44016, 44025); (65296, 65305);
    (66720, 66729); (68160, 68163); (68912, 68921); (69216, 69224);
    (69714, 69722); (69734, 69743); (69872, 69881); (69942, 69951);
    (70096, 70105); (70384, 70393); (70736, 70745); (70864, 70873);
    (71248, 71257); (71360, 71369); (71472, 71481); (71904, 71913);
    (72016, 72025); (72784, 72793); (73040, 73049); (73120, 73129);
    (92768, 92777); (92864, 92873); (93008, 93017); (120782, 120831);
    (123200, 123209); (123632, 123641); (125264, 125273);
    (127232, 127242); (130032, 130041) ].

Definition in_range (c : N) (r : N * N) : bool := (fst r <=? c) && (c <=? snd r).

Definition char_isdigit (c : N) : bool := existsb (in_range c) digit_ranges.

(** [s.isdigit()]: every character is a digit and there is at least one. *)
Definition str_isdigit (s : pystr) : bool :=
  match s with
  | [] => false
  | _ => forallb char_isdigit s
  end.

(** The regular expression [^[0-9]+$] of the specification, as a full
    match: one or more characters, each an ASCII digit. *)
Definition is_ascii_digit (c : N) : bool := (48 <=? c) && (c <=? 57).

Definition re_ascii_digits (s : pystr) : bool :=
  match s with
  | [] => false
  | _ => forallb is_ascii_digit s
  end.

(** ** [sanitize_filename] *)

(** [re.sub(pattern, repl, s)] for a pattern that is one character class
    [[...]]: the matches are the single characters of the class, found
    left to right, and each is replaced by [repl]. *)
Definition re_sub_class (class : list N) (repl : pystr) (s : pystr) : pystr :=
  flat_map (fun c => if existsb (N.eqb c) class then repl else [c]) s.

(** The characters of the class of the pattern: less-than, greater-than,
    colon, double quote (code 34), slash, backslash, bar, question mark
    and star. *)
Definition forbidden_chars : list N := lit "<>:" ++ [34] ++ lit "/\|?*".

Definition underscore : N := 95.

Definition sanitize_filename (filename : pystr) : pystr :=
  re_sub_class forbidden_chars [underscore] filename.

Definition is_forbidden (c : N) : bool := existsb (N.eqb c) forbidden_chars.


(** ** Paths *)

Definition path := list pystr.

Definition slash : N := 47.
Definition dot : N := 46.

Fixpoint path_eqb (p q : path) : bool :=
  match p, q with
  | [], [] => true
  | x :: p', y :: q' => str_eqb x y && path_eqb p' q'
  | _, _ => false
  end.

(** [os.path.join(root, name)] for a directory-entry name. *)
Definition path_join (root : path) (name : pystr) : path := root ++ [name].

(** [os.path.basename(p)]: the last component. *)
Definition basename (p : path) : pystr := last p [].

(** The text of a path: a slash before each component. *)
Definition path_str (p : path) : pystr :=
  match p with
  | [] => [slash]
  | _ => flat_map (fun name => slash :: name) p
  end.

(** [s.rfind(c)], with [None] for Python's -1. *)
Fixpoint rfind_from (c : N) (s : pystr) (i : nat) : option nat :=
  match s with
  | [] => None
  | x :: s' =>
      match rfind_from c s' (S i) with
      | Some j => Some j
      | None => if x =? c then Some i else None
      end
  end.

Definition rfind (c : N) (s : pystr) : option nat := rfind_from c s 0.

(** [os.path.splitext(p)] (posixpath): split at the last dot that comes
    after the last slash, unless only dots precede it in the file name. *)
Definition splitext (p : pystr) : pystr * pystr :=
  let sepIndex := rfind slash p in
  let dotIndex := rfind dot p in
  match dotIndex with
  | None => (p, [])
  | Some d =>
      let filenameIndex := match sepIndex with Some i => S i | None => O end in
      if Nat.leb filenameIndex d then
        if existsb (fun ch => negb (ch =? dot))
                   (firstn (d - filenameIndex)%nat (skipn filenameIndex p))
        then (firstn d p, skipn d p)
        else (p, [])
      else (p, [])
  end.

(** [os.path.relpath(p, start)] for two absolute, normalised paths: drop
    the common prefix, climb out of what is left of [start]. *)
Fixpoint relpath_list (p start : path) : path :=
  match p, start with
  | x :: p', y :: start' =>
      if str_eqb x y then relpath_list p' start'
      else repeat (lit "..") (length start) ++ p
  | _, _ => repeat (lit "..") (length start) ++ p
  end.

Definition relpath (p start : path) : path :=
  match relpath_list p start with
  | [] => [lit "."]
  | l => l
  end.

(** ** Filesystem *)

(** What a file holds: raw bytes, or a zip archive with its members in
    the order they were written (member name, member data). *)
Inductive content :=
| Blob (data : list N)
| ZipArchive (members : list (path * content)).

(** A directory keeps its entries in the order [os.scandir] lists them. *)
Inductive node :=
| File (c : content)
| Dir (entries : list (pystr * node)).

Fixpoint entry_get (name : pystr) (es : list (pystr * node)) : option node :=
  match es with
  | [] => None
  | (k, n) :: rest => if str_eqb k name then Some n else entry_get name rest
  end.

(** Replace the entry called [name], or add it after the others. *)
Fixpoint entry_set (name : pystr) (new : node) (es : list (pystr * node)) :=
  match es with
  | [] => [(name, new)]
  | (k, n) :: rest =>
      if str_eqb k name then (k, new) :: rest else (k, n) :: entry_set name new rest
  end.

Fixpoint entry_del (name : pystr) (es : list (pystr * node)) :=
  match es with
  | [] => []
  | (k, n) :: rest =>
      if str_eqb k name then rest else (k, n) :: entry_del name rest
  end.

Fixpoint fs_lookup (n : node) (p : path) : option node :=
  match p with
  | [] => Some n
  | name :: rest =>
      match n with
      | Dir es =>
          match entry_get name es with
          | Some child => fs_lookup child rest
          | None => None
          end
      | File _ => None
      end
  end.

(** Put [new] at [p]; the parent of [p] has to be a directory. *)
Fixpoint fs_put (n : node) (p : path) (new : node) : option node :=
  match p with
  | [] => Some new
  | name :: rest =>
      match n with
      | Dir es =>
          match rest with
          | [] => Some (Dir (entry_set name new es))
          | _ =>
              match entry_get name es with
              | Some child =>
                  match fs_put child rest new with
                  | Some child' => Some (Dir (entry_set name child' es))
                  | None => None
                  end
              | None => None
              end
          end
      | File _ => None
      end
  end.

(** Remove the entry at [p], with everything below it. *)
Fixpoint fs_del (n : node) (p : path) : option node :=
  match p with
  | [] => None
  | name :: rest =>
      match n with
      | Dir es =>
          match rest with
          | [] =>
              match entry_get name es with
              | Some _ => Some (Dir (entry_del name es))
              | None => None
              end
          | _ =>
              match entry_get name es with
              | Some child =>
                  match fs_del child rest with
                  | Some child' => Some (Dir (entry_set name child' es))
                  | None => None
                  end
              | None => None
              end
          end
      | File _ => None
      end
  end.

(** A file with content [c] sits at the relative path [p] below [n]. *)
Inductive file_at : node -> path -> content -> Prop :=
| file_here c : file_at (File c) [] c
| file_below es name child rest c :
    In (name, child) es -> file_at child rest c ->
    file_at (Dir es) (name :: rest) c.

Definition subdirs (es : list (pystr * node)) : list pystr :=
  flat_map (fun '(name, child) =>
              match child with Dir _ => [name] | File _ => [] end) es.

Definition nondirs (es : list (pystr * node)) : list pystr :=
  flat_map (fun '(name, child) =>
              match child with File _ => [name] | Dir _ => [] end) es.

(** [os.walk(top)], top-down: the triple of a directory, then the walks
    of its sub-directories in the order of the listing. Nothing is
    yielded for what is not a directory. *)
Fixpoint walk (top : path) (n : node) : list (path * list pystr * list pystr) :=
  match n with
  | File _ => []
  | Dir es =>
      (top, subdirs es, nondirs es)
        :: flat_map (fun '(name, child) => walk (path_join top name) child) es
  end.

(** A tree as a filesystem has it: a directory lists each name once. *)
Fixpoint names_distinct (l : list pystr) : bool :=
  match l with
  | [] => true
  | x :: rest => negb (str_in x rest) && names_distinct rest
  end.

Fixpoint unique_names (n : node) : bool :=
  match n with
  | File _ => true
  | Dir es =>
      names_distinct (map fst es)
      && forallb (fun '(_, child) => unique_names child) es
  end.

(** Induction on a tree, with the property at hand for every entry of a
    directory. *)
Section node_induction.

Variable P : node -> Prop.
Hypothesis P_File : forall c, P (File c).
Hypothesis P_Dir : forall es, Forall (fun e => P (snd e)) es -> P (Dir es).

Fixpoint node_induction (n : node) : P n :=
  match n with
  | File c => P_File c
  | Dir es =>
      P_Dir es
        ((fix children (l : list (pystr * node)) : Forall (fun e => P (snd e)) l :=
            match l with
            | [] => Forall_nil _
            | e :: rest => Forall_cons e (node_induction (snd e)) (children rest)
            end) es)
  end.

End node_induction.

Definition os_walk (fs : node) (top : path) : list (path * list pystr * list pystr) :=
  match fs_lookup fs top with
  | Some n => walk top n
  | None => []
  end.


(** ** The world and the monad of the handlers *)

(** An exception, as the text [str(e)] gives for it. *)
Definition exn := pystr.

Inductive outcome (A : Type) :=
| Ok (a : A)
| Raise (e : exn).
Arguments Ok {A} a.
Arguments Raise {A} e.

Inductive level := INFO | ERROR.

Inductive resource := Track | Album | Playlist.

(** One call of the provider: [download_trackdee], [download_albumdee] or
    [download_playlistdee] with its keyword arguments. *)
Record provider_call := {
  pc_resource : resource;
  pc_link : pystr;
  pc_output_dir : path;
  pc_quality_download : pystr;
  pc_recursive_quality : bool;
  pc_recursive_download : bool
}.

Record world := {
  fs : node;                         (* the filesystem, from the root *)
  tempdir : path;                    (* tempfile.gettempdir() *)
  tmp_names : list pystr;            (* the names the random generator yields *)
  log : list (level * pystr);        (* the records of [logger] *)
  provider_calls : list provider_call
}.

Definition with_fs (w : world) (fs' : node) : world :=
  {| fs := fs'; tempdir := tempdir w; tmp_names := tmp_names w;
     log := log w; provider_calls := provider_calls w |}.

Definition with_record (w : world) (lvl : level) (msg : pystr) : world :=
  {| fs := fs w; tempdir := tempdir w; tmp_names := tmp_names w;
     log := log w ++ [(lvl, msg)]; provider_calls := provider_calls w |}.

Definition with_call (w : world) (call : provider_call) (fs' : node) : world :=
  {| fs := fs'; tempdir := tempdir w; tmp_names := tmp_names w;
     log := log w; provider_calls := provider_calls w ++ [call] |}.

Definition M (A : Type) := world -> outcome A * world.

Definition ret {A} (a : A) : M A := fun w => (Ok a, w).

Definition raise {A} (e : exn) : M A := fun w => (Raise e, w).

Definition bind {A B} (m : M A) (k : A -> M B) : M B :=
  fun w =>
    match m w with
    | (Ok a, w') => k a w'
    | (Raise e, w') => (Raise e, w')
    end.

(** [try: body except Exception as e: handler(e)] *)
Definition try_except {A} (body : M A) (handler : exn -> M A) : M A :=
  fun w =>
    match body w with
    | (Ok a, w') => (Ok a, w')
    | (Raise e, w') => handler e w'
    end.

Notation "x <- m ;; k" := (bind m (fun x => k))
  (at level 100, m at next level, right associativity).
Notation "m ;; k" := (bind m (fun _ => k))
  (at level 100, right associativity).

Definition logger_info (msg : pystr) : M unit :=
  fun w => (Ok tt, with_record w INFO msg).

Definition logger_error (msg : pystr) : M unit :=
  fun w => (Ok tt, with_record w ERROR msg).

(** *** Operating-system calls *)

(** [str(e)] of an [OSError] with a file name that needs no escaping. *)
Definition os_error (errno : N) (strerror : pystr) (p : path) : exn :=
  lit "[Errno " ++ str_of_N errno ++ lit "] " ++ strerror
      ++ lit ": '" ++ path_str p ++ lit "'".

Definition ENOENT {A} (p : path) : M A := raise (os_error 2 (lit "No such file or directory") p).
Definition EEXIST {A} (p : path) : M A := raise (os_error 17 (lit "File exists") p).
Definition ENOTDIR {A} (p : path) : M A := raise (os_error 20 (lit "Not a directory") p).
Definition EISDIR {A} (p : path) : M A := raise (os_error 21 (lit "Is a directory") p).
Definition ENOTEMPTY {A} (p : path) : M A := raise (os_error 39 (lit "Directory not empty") p).

Definition parent (p : path) : path := removelast p.

(** Write the tree that a successful call leaves. *)
Definition commit (p : path) (new : option node) : M unit :=
  fun w =>
    match new with
    | Some fs' => (Ok tt, with_fs w fs')
    | None => ENOENT p w
    end.

(** [os.mkdir(p)] *)
Definition os_mkdir (p : path) : M unit :=
  fun w =>
    match fs_lookup (fs w) p with
    | Some _ => EEXIST p w
    | None =>
        match fs_lookup (fs w) (parent p) with
        | Some (Dir _) => commit p (fs_put (fs w) p (Dir [])) w
        | Some (File _) => ENOTDIR p w
        | None => ENOENT p w
        end
    end.

(** [os.remove(p)] *)
Definition os_remove (p : path) : M unit :=
  fun w =>
    match fs_lookup (fs w) p with
    | Some (File _) => commit p (fs_del (fs w) p) w
    | Some (Dir _) => EISDIR p w
    | None => ENOENT p w
    end.

(** [os.rmdir(p)] *)
Definition os_rmdir (p : path) : M unit :=
  fun w =>
    match fs_lookup (fs w) p with
    | Some (Dir []) => commit p (fs_del (fs w) p) w
    | Some (Dir (_ :: _)) => ENOTEMPTY p w
    | Some (File _) => ENOTDIR p w
    | None => ENOENT p w
    end.

(** [shutil.rmtree(p)] *)
Definition shutil_rmtree (p : path) : M unit :=
  fun w =>
    match fs_lookup (fs w) p with
    | Some (Dir _) => commit p (fs_del (fs w) p) w
    | Some (File _) => ENOTDIR p w
    | None => ENOENT p w
    end.

(** [os.rename(src, dst)] of a file: an existing file at [dst] is
    replaced, a directory there is an error. *)
Definition os_rename (src dst : path) : M unit :=
  fun w =>
    match fs_lookup (fs w) src with
    | Some (File c) =>
        match fs_lookup (fs w) dst with
        | Some (Dir _) => EISDIR dst w
        | _ =>
            match fs_del (fs w) src with
            | Some fs1 => commit dst (fs_put fs1 dst (File c)) w
            | None => ENOENT src w
            end
        end
    | Some (Dir es) =>
        match fs_lookup (fs w) dst with
        | Some (File _) => ENOTDIR dst w
        | Some (Dir (_ :: _)) => ENOTEMPTY dst w
        | _ =>
            match fs_del (fs w) src with
            | Some fs1 => commit dst (fs_put fs1 dst (Dir es)) w
            | None => ENOENT src w
            end
        end
    | None => ENOENT src w
    end.

(** [tempfile.mkdtemp()]: try the names of the generator in turn, at most
    [TMP_MAX] of them, until [os.mkdir] finds one free: a name that exists
    is skipped, any other failure of [os.mkdir] is raised. *)
Definition TMP_MAX : N := 10000.

Fixpoint mkdtemp_loop (names : list pystr) (seq : N) : M path :=
  match names with
  | [] => raise (lit "[Errno 17] No usable temporary directory name found")
  | name :: rest =>
      if TMP_MAX <=? seq
      then raise (lit "[Errno 17] No usable temporary directory name found")
      else fun w =>
        let w1 := {| fs := fs w; tempdir := tempdir w; tmp_names := rest;
                     log := log w; provider_calls := provider_calls w |} in
        let file := path_join (tempdir w) (lit "tmp" ++ name) in
        match fs_lookup (fs w) file with
        | Some _ => mkdtemp_loop rest (seq + 1) w1
        | None => (_ <- os_mkdir file ;; ret file) w1
        end
  end.

Definition mkdtemp : M path := fun w => mkdtemp_loop (tmp_names w) 0 w.

(** The files below [temp_dir] whose name ends in [.mp3] or [.flac], in
    the order of the walk:
    [for root, dirs, files in os.walk(temp_dir): for file in files: ...] *)
Definition audio_suffixes : list pystr := [lit ".mp3"; lit ".flac"].

Definition discovered (fs : node) (temp_dir : path) : list path :=
  flat_map
    (fun '(root, dirs, files) =>
       flat_map (fun file =>
                   if endswith_any file audio_suffixes
                   then [path_join root file] else [])
                files)
    (os_walk fs temp_dir).

Definition find_audio_files (temp_dir : path) : M (list path) :=
  fun w => (Ok (discovered (fs w) temp_dir), w).

(** *** The zip archive

    [zipfile.ZipFile(zip_path, 'w')] creates or truncates the file;
    [zipf.write(file_path, arcname)] reads [file_path] and appends a
    member to the archive (a directory gives an empty member whose name
    ends in a slash). *)
Definition zipfile_open (zip_path : path) : M unit :=
  fun w =>
    match fs_lookup (fs w) zip_path with
    | Some (Dir _) => EISDIR zip_path w
    | _ => commit zip_path (fs_put (fs w) zip_path (File (ZipArchive []))) w
    end.

Definition zipf_write (zip_path file_path arcname : path) : M unit :=
  fun w =>
    match fs_lookup (fs w) file_path with
    | None => ENOENT file_path w
    | Some n =>
        let member :=
          match n with
          | File c => (arcname, c)
          | Dir _ => (arcname ++ [[]], Blob [])
          end in
        match fs_lookup (fs w) zip_path with
        | Some (File (ZipArchive members)) =>
            commit zip_path
              (fs_put (fs w) zip_path (File (ZipArchive (members ++ [member])))) w
        | _ => ENOENT zip_path w
        end
    end.

(** [for x in l: body(x)] *)
Fixpoint for_each {A} (l : list A) (body : A -> M unit) : M unit :=
  match l with
  | [] => ret tt
  | x :: rest => body x ;; for_each rest body
  end.

(** *** Requests and responses *)

(** [request.args]: the query parameters in the order of the URL. *)
Definition query := list (pystr * pystr).

(** [request.args.get(key, default)]: the first value of [key]. *)
Fixpoint args_get (args : query) (key default : pystr) : pystr :=
  match args with
  | [] => default
  | (k, v) :: rest => if str_eqb k key then v else args_get rest key default
  end.

(** The quality a handler works with: [request.args.get('quality', 'MP3_320')]. *)
Definition requested_quality (args : query) : pystr :=
  args_get args (lit "quality") (lit "MP3_320").

(** The cleanup closures: [remove_file] of [download_song], and
    [remove_files] of [download_album] and [download_playlist], with the
    variables they capture. *)
Inductive callback :=
| remove_file (audio_file temp_dir : path)
| remove_files (zip_path temp_dir : path).

(** A response is [jsonify({'error': msg}), status], or what [send_file]
    returns: the file sent as an attachment. *)
Inductive response :=
| Json (status : N) (error : pystr)
| Attachment (file : path) (download_name mimetype : pystr) (body : content).

(** [send_file(file, as_attachment=True, download_name=..., mimetype=...)] *)
Definition send_file (file : path) (download_name mimetype : pystr) : M response :=
  fun w =>
    match fs_lookup (fs w) file with
    | Some (File c) => (Ok (Attachment file download_name mimetype c), w)
    | Some (Dir _) => EISDIR file w
    | None => ENOENT file w
    end.

(** [response.call_after_request], the decorator expression above the
    cleanup closures. The response that [send_file] returns is an
    instance of the class [Response] of the framework, which has
    [call_on_close] and no attribute [call_after_request]: evaluating the
    expression raises [AttributeError], before the closure below it is
    defined. *)
Definition attribute_error : exn :=
  lit "'Response' object has no attribute 'call_after_request'".

Definition call_after_request (resp : response) : M (callback -> M callback) :=
  raise attribute_error.

Definition a_acute : N := 225.
Definition o_acute : N := 243.
Definition A_acute : N := 193.

Definition allowed_qualities : list pystr := [lit "MP3_128"; lit "MP3_320"; lit "FLAC"].

Definition msg_invalid_quality : pystr :=
  lit "Calidad no v" ++ [a_acute] ++ lit "lida. Opciones permitidas: "
      ++ str_of_list allowed_qualities.

Definition msg_invalid_song_id : pystr :=
  lit "ID de canci" ++ [o_acute] ++ lit "n inv" ++ [a_acute] ++ lit "lido".
Definition msg_invalid_album_id : pystr :=
  lit "ID de " ++ [a_acute] ++ lit "lbum inv" ++ [a_acute] ++ lit "lido".
Definition msg_invalid_playlist_id : pystr :=
  lit "ID de playlist inv" ++ [a_acute] ++ lit "lido".

Definition msg_no_song_file : pystr :=
  lit "No se encontr" ++ [o_acute] ++ lit " el archivo descargado".
Definition msg_no_files : pystr := lit "No se encontraron archivos descargados".

(** The body of a cleanup closure, applied to the response. *)
Definition run_callback (cb : callback) (resp : response) : M response :=
  match cb with
  | remove_file audio_file temp_dir =>
      try_except
        (os_remove audio_file ;; os_rmdir temp_dir)
        (fun e => logger_error (lit "No se pudo eliminar archivos temporales: " ++ e)) ;;
      ret resp
  | remove_files zip_path temp_dir =>
      try_except
        (os_remove zip_path ;; shutil_rmtree temp_dir)
        (fun e => logger_error (lit "No se pudieron eliminar archivos temporales: " ++ e)) ;;
      ret resp
  end.

(** ** The handlers *)

Section Handlers.

(** The provider client [deezer]: what a call does to the filesystem,
    and whether it raises. *)
Variable deezer : provider_call -> node -> outcome unit * node.

Definition provider (call : provider_call) : M unit :=
  fun w =>
    let (r, fs') := deezer call (fs w) in (r, with_call w call fs').

(** The outermost [try ... except Exception as e] of a handler; what
    the [except] clause itself would raise goes to [internal_error],
    the handler the application registers for status 500. *)
Definition handle (body : M response) (except : exn -> M response)
  : world -> response * world :=
  fun w =>
    match try_except body except w with
    | (Ok r, w') => (r, w')
    | (Raise e, w') => (Json 500 (lit "Error interno del servidor"), w')
    end.

Definition download_song (id : pystr) (args : query) : world -> response * world :=
  handle
    (let quality := args_get args (lit "quality") (lit "MP3_320") in
     if negb (str_in quality allowed_qualities) then
       ret (Json 400 msg_invalid_quality)
     else if negb (str_isdigit id) then
       ret (Json 400 msg_invalid_song_id)
     else
       temp_dir <- mkdtemp ;;
       let song_url := lit "https://www.deezer.com/track/" ++ id in
       logger_info (lit "Iniciando descarga de canci" ++ [o_acute] ++ lit "n: "
                        ++ song_url ++ lit ", calidad: " ++ quality) ;;
       provider {| pc_resource := Track;
                   pc_link := song_url;
                   pc_output_dir := temp_dir;
                   pc_quality_download := quality;
                   pc_recursive_quality := false;
                   pc_recursive_download := false |} ;;
       downloaded_files <- find_audio_files temp_dir ;;
       match downloaded_files with
       | [] => ret (Json 500 msg_no_song_file)
       | audio_file :: _ =>
           let original_filename := basename audio_file in
           let base_name := fst (splitext original_filename) in
           let sanitized_name := sanitize_filename base_name in
           let new_filename :=
             sanitized_name ++ lit "."
               ++ (if str_eqb quality (lit "FLAC") then lit "flac" else lit "mp3") in
           let new_filepath := path_join temp_dir new_filename in
           audio_file <-
             (if negb (path_eqb audio_file new_filepath)
              then os_rename audio_file new_filepath ;; ret new_filepath
              else ret audio_file) ;;
           logger_info (lit "Canci" ++ [o_acute] ++ lit "n descargada exitosamente: "
                            ++ new_filename) ;;
           response <-
             send_file audio_file new_filename
               (if negb (str_eqb quality (lit "FLAC"))
                then lit "audio/mpeg" else lit "audio/flac") ;;
           decorator <- call_after_request response ;;
           remove_file <- decorator (remove_file audio_file temp_dir) ;;
           ret response
       end)
    (fun e =>
       logger_error (lit "Error al descargar canci" ++ [o_acute] ++ lit "n: " ++ e) ;;
       ret (Json 500 (lit "Error al descargar la canci" ++ [o_acute] ++ lit "n: " ++ e))).

Definition download_album (id : pystr) (args : query) : world -> response * world :=
  handle
    (let quality := args_get args (lit "quality") (lit "MP3_320") in
     if negb (str_in quality allowed_qualities) then
       ret (Json 400 msg_invalid_quality)
     else if negb (str_isdigit id) then
       ret (Json 400 msg_invalid_album_id)
     else
       temp_dir <- mkdtemp ;;
       let album_url := lit "https://www.deezer.com/album/" ++ id in
       logger_info (lit "Iniciando descarga de " ++ [a_acute] ++ lit "lbum: "
                        ++ album_url ++ lit ", calidad: " ++ quality) ;;
       provider {| pc_resource := Album;
                   pc_link := album_url;
                   pc_output_dir := temp_dir;
                   pc_quality_download := quality;
                   pc_recursive_quality := true;
                   pc_recursive_download := false |} ;;
       audio_files <- find_audio_files temp_dir ;;
       match audio_files with
       | [] => ret (Json 500 msg_no_files)
       | _ =>
           let zip_path := path_join temp_dir (lit "album_" ++ id ++ lit ".zip") in
           zipfile_open zip_path ;;
           for_each audio_files
             (fun file_path =>
                let arcname := relpath file_path temp_dir in
                zipf_write zip_path file_path arcname) ;;
           logger_info ([A_acute] ++ lit "lbum descargado y empaquetado en ZIP: "
                            ++ str_of_N (N.of_nat (length audio_files))
                            ++ lit " archivos") ;;
           response <-
             send_file zip_path (lit "album_" ++ id ++ lit ".zip")
               (lit "application/zip") ;;
           decorator <- call_after_request response ;;
           remove_files <- decorator (remove_files zip_path temp_dir) ;;
           ret response
       end)
    (fun e =>
       logger_error (lit "Error al descargar " ++ [a_acute] ++ lit "lbum: " ++ e) ;;
       ret (Json 500 (lit "Error al descargar el " ++ [a_acute] ++ lit "lbum: " ++ e))).

Definition download_playlist (id : pystr) (args : query) : world -> response * world :=
  handle
    (let quality := args_get args (lit "quality") (lit "MP3_320") in
     if negb (str_in quality allowed_qualities) then
       ret (Json 400 msg_invalid_quality)
     else if negb (str_isdigit id) then
       ret (Json 400 msg_invalid_playlist_id)
     else
       temp_dir <- mkdtemp ;;
       let playlist_url := lit "https://www.deezer.com/playlist/" ++ id in
       logger_info (lit "Iniciando descarga de playlist: "
                        ++ playlist_url ++ lit ", calidad: " ++ quality) ;;
       provider {| pc_resource := Playlist;
                   pc_link := playlist_url;
                   pc_output_dir := temp_dir;
                   pc_quality_download := quality;
                   pc_recursive_quality := true;
                   pc_recursive_download := false |} ;;
       audio_files <- find_audio_files temp_dir ;;
       match audio_files with
       | [] => ret (Json 500 msg_no_files)
       | _ =>
           let zip_path := path_join temp_dir (lit "playlist_" ++ id ++ lit ".zip") in
           zipfile_open zip_path ;;
           for_each audio_files
             (fun file_path =>
                let arcname := relpath file_path temp_dir in
                zipf_write zip_path file_path arcname) ;;
           logger_info (lit "Playlist descargada y empaquetada en ZIP: "
                            ++ str_of_N (N.of_nat (length audio_files))
                            ++ lit " archivos") ;;
           response <-
             send_file zip_path (lit "playlist_" ++ id ++ lit ".zip")
               (lit "application/zip") ;;
           decorator <- call_after_request response ;;
           remove_files <- decorator (remove_files zip_path temp_dir) ;;
           ret response
       end)
    (fun e =>
       logger_error (lit "Error al descargar playlist: " ++ e) ;;
       ret (Json 500 (lit "Error al descargar la playlist: " ++ e))).

(** The steps of [download_album] and [download_playlist] once the
    artifacts are discovered, for the archive name [z]. *)
Definition archive_steps (temp_dir : path) (z : pystr) (files : list path)
           (msg : pystr) : M response :=
  zipfile_open (path_join temp_dir z) ;;
  for_each files
    (fun file_path =>
       let arcname := relpath file_path temp_dir in
       zipf_write (path_join temp_dir z) file_path arcname) ;;
  logger_info msg ;;
  response <- send_file (path_join temp_dir z) z (lit "application/zip") ;;
  decorator <- call_after_request response ;;
  remove_files <- decorator (remove_files (path_join temp_dir z) temp_dir) ;;
  ret response.

End Handlers.

(** ** The vocabulary of the statements *)

Definition is_attachment (r : response) : Prop :=
  match r with
  | Attachment _ _ _ _ => True
  | Json _ _ => False
  end.

(** The calls the three handlers make. *)
Definition track_call (id quality : pystr) (temp_dir : path) : provider_call :=
  {| pc_resource := Track;
     pc_link := lit "https://www.deezer.com/track/" ++ id;
     pc_output_dir := temp_dir;
     pc_quality_download := quality;
     pc_recursive_quality := false;
     pc_recursive_download := false |}.

Definition album_call (id quality : pystr) (temp_dir : path) : provider_call :=
  {| pc_resource := Album;
     pc_link := lit "https://www.deezer.com/album/" ++ id;
     pc_output_dir := temp_dir;
     pc_quality_download := quality;
     pc_recursive_quality := true;
     pc_recursive_download := false |}.

Definition playlist_call (id quality : pystr) (temp_dir : path) : provider_call :=
  {| pc_resource := Playlist;
     pc_link := lit "https://www.deezer.com/playlist/" ++ id;
     pc_output_dir := temp_dir;
     pc_quality_download := quality;
     pc_recursive_quality := true;
     pc_recursive_download := false |}.

(** No file with an audio name below [temp_dir]. *)
Definition no_audio_below (fs0 : node) (temp_dir : path) : Prop :=
  forall n rel c,
    fs_lookup fs0 temp_dir = Some n -> file_at n rel c ->
    endswith_any (basename rel) audio_suffixes = false.

(** The provider, called on the filesystem [fs0], returns and leaves no
    audio file below [temp_dir]. *)
Definition writes_no_audio (deezer : provider_call -> node -> outcome unit * node)
           (call : provider_call) (fs0 : node) (temp_dir : path) : Prop :=
  exists fs2, deezer call fs0 = (Ok tt, fs2) /\ no_audio_below fs2 temp_dir.

(** An artifact: a file below [temp_dir], given by its relative path,
    whose name ends in [.mp3] or [.flac]. *)
Definition artifact (fs0 : node) (temp_dir rel : path) : Prop :=
  rel <> []
  /\ endswith_any (basename rel) audio_suffixes = true
  /\ exists c, fs_lookup fs0 (temp_dir ++ rel) = Some (File c).

(** Neither path leads to the other. *)
Definition apart (p q : path) : Prop :=
  (forall r, p <> q ++ r) /\ (forall r, q <> p ++ r).

(** The member [zipf.write] adds for what it finds at [file_path]. *)
Definition member_of (n : node) (arcname : path) : path * content :=
  match n with
  | File c => (arcname, c)
  | Dir _ => (arcname ++ [[]], Blob [])
  end.

(** The archive [z] of [temp_dir] in the filesystem [fs3] holds the
    artifacts discovered in [fs2], and nothing else: one member for each,
    in the order of discovery, under its path relative to [temp_dir] and
    with the content it has in [fs2]. *)
Definition archived (temp_dir : path) (z : pystr) (fs2 fs3 : node) : Prop :=
  exists rels members,
    discovered fs2 temp_dir = map (app temp_dir) rels
    /\ rels <> []
    /\ map fst members = rels
    /\ Forall2 (fun rel m => fs_lookup fs2 (temp_dir ++ rel) = Some (File (snd m)))
               rels members
    /\ fs_lookup fs3 (path_join temp_dir z) = Some (File (ZipArchive members)).

(** The HTTP status of a response; [send_file] answers 200. *)
Definition status (r : response) : N :=
  match r with
  | Json s _ => s
  | Attachment _ _ _ _ => 200
  end.

(** The response is a success or a server error. *)
Definition ok_or_server_error (r : response) : Prop := status r = 200 \/ status r = 500.

(** A request passes the validation of the handlers. *)
Definition valid_request (id : pystr) (args : query) : Prop :=
  In (requested_quality args) allowed_qualities /\ str_isdigit id = true.

(** The computation [m] keeps the property [I] of the world, whether it
    returns or raises. *)
Definition preserves {A} (I : world -> Prop) (m : M A) : Prop :=
  forall w r w', m w = (r, w') -> I w -> I w'.

(** What [m] returns, when it returns, satisfies [Q]. *)
Definition returns {A} (Q : A -> Prop) (m : M A) : Prop :=
  forall w a w', m w = (Ok a, w') -> Q a.

(** The provider calls made so far are [c]. *)
Definition calls_are (c : list provider_call) (w : world) : Prop :=
  provider_calls w = c.

(** The name under which [download_song] sends the artifact [first] at
    the quality [quality]. *)
Definition sent_name (quality : pystr) (first : path) : pystr :=
  sanitize_filename (fst (splitext (basename first))) ++ lit "."
    ++ (if str_eqb quality (lit "FLAC") then lit "flac" else lit "mp3").

(** The steps of [download_song] once the artifacts are discovered,
    [first] being the first of them. *)
Definition song_steps (temp_dir : path) (quality : pystr) (first : path) : M response :=
  let new_filename := sent_name quality first in
  let new_filepath := path_join temp_dir new_filename in
  audio_file <-
    (if negb (path_eqb first new_filepath)
     then os_rename first new_filepath ;; ret new_filepath
     else ret first) ;;
  logger_info (lit "Canci" ++ [o_acute] ++ lit "n descargada exitosamente: "
                   ++ new_filename) ;;
  response <-
    send_file audio_file new_filename
      (if negb (str_eqb quality (lit "FLAC"))
       then lit "audio/mpeg" else lit "audio/flac") ;;
  decorator <- call_after_request response ;;
  remove_file <- decorator (remove_file audio_file temp_dir) ;;
  ret response.

(** The messages of the three [except] clauses, for the exception [e]:
    the record that is logged and the body of the 500 answer. *)
Definition song_error_record (e : exn) : pystr :=
  lit "Error al descargar canci" ++ [o_acute] ++ lit "n: " ++ e.
Definition song_error (e : exn) : pystr :=
  lit "Error al descargar la canci" ++ [o_acute] ++ lit "n: " ++ e.

Definition album_error_record (e : exn) : pystr :=
  lit "Error al descargar " ++ [a_acute] ++ lit "lbum: " ++ e.
Definition album_error (e : exn) : pystr :=
  lit "Error al descargar el " ++ [a_acute] ++ lit "lbum: " ++ e.

Definition playlist_error_record (e : exn) : pystr :=
  lit "Error al descargar playlist: " ++ e.
Definition playlist_error (e : exn) : pystr :=
  lit "Error al descargar la playlist: " ++ e.

(** The records that announce a download. *)
Definition song_start (id quality : pystr) : pystr :=
  lit "Iniciando descarga de canci" ++ [o_acute] ++ lit "n: "
      ++ (lit "https://www.deezer.com/track/" ++ id) ++ lit ", calidad: " ++ quality.
Definition album_start (id quality : pystr) : pystr :=
  lit "Iniciando descarga de " ++ [a_acute] ++ lit "lbum: "
      ++ (lit "https://www.deezer.com/album/" ++ id) ++ lit ", calidad: " ++ quality.
Definition playlist_start (id quality : pystr) : pystr :=
  lit "Iniciando descarga de playlist: "
      ++ (lit "https://www.deezer.com/playlist/" ++ id) ++ lit ", calidad: " ++ quality.

(** The names of the archives. *)
Definition album_zip (id : pystr) : pystr := lit "album_" ++ id ++ lit ".zip".
Definition playlist_zip (id : pystr) : pystr := lit "playlist_" ++ id ++ lit ".zip".

(** The records that announce an archive of [n] files. *)
Definition album_packed (n : nat) : pystr :=
  [A_acute] ++ lit "lbum descargado y empaquetado en ZIP: "
    ++ str_of_N (N.of_nat n) ++ lit " archivos".
Definition playlist_packed (n : nat) : pystr :=
  lit "Playlist descargada y empaquetada en ZIP: "
    ++ str_of_N (N.of_nat n) ++ lit " archivos".

(** When [m] raises, it is not the [AttributeError] of
    [call_after_request], and the world is as it was. *)
Definition os_failure {A} (m : M A) : Prop :=
  forall w e w', m w = (Raise e, w') -> w' = w /\ e <> attribute_error.

(** There is a directory at [d]. *)
Definition is_dir_at (d : path) (w : world) : Prop :=
  exists es, fs_lookup (fs w) d = Some (Dir es).

(** Outside of [p], the filesystem is as in [fs2]. *)
Definition same_outside (p : path) (fs2 : node) (w : world) : Prop :=
  forall q, apart p q -> fs_lookup (fs w) q = fs_lookup fs2 q.

(** What a handler answers with once the steps [m] past the discovery
    have run: the response of [m], or the 500 answer of the [except]
    clause with its record in the log. *)
Definition finish (m : M response) (record body : exn -> pystr)
  : world -> response * world :=
  fun w =>
    match m w with
    | (Ok r, w') => (r, w')
    | (Raise e, w') => (Json 500 (body e), with_record w' ERROR (record e))
    end.

(** ** Concrete inputs *)

(** A machine with an empty [/tmp]. *)
Definition demo_world : world :=
  {| fs := Dir [(lit "tmp", Dir [])];
     tempdir := [lit "tmp"];
     tmp_names := [lit "k3x9_q2a"; lit "m0p4zz1b"];
     log := [];
     provider_calls := [] |}.

Definition demo_temp_dir : path := [lit "tmp"; lit "tmpk3x9_q2a"].

(** A provider that fills the output directory with [files]. *)
Definition provider_writing (files : list (pystr * node))
  : provider_call -> node -> outcome unit * node :=
  fun call fs0 =>
    match fs_put fs0 (pc_output_dir call) (Dir files) with
    | Some fs1 => (Ok tt, fs1)
    | None => (Raise (lit "output directory not found"), fs0)
    end.

Definition no_files : list (pystr * node) := [].

Definition cover_only : list (pystr * node) :=
  [(lit "cover.jpg", File (Blob [255; 216; 255]))].

Definition one_track : list (pystr * node) :=
  [(lit "AC:DC - Best?.mp3", File (Blob [73; 68; 51; 4]))].

Definition three_tracks : list (pystr * node) :=
  [(lit "Artist - Album",
    Dir [(lit "01 - Intro.mp3", File (Blob [73; 68; 51; 1]));
         (lit "CD2", Dir [(lit "02 - Theme.mp3", File (Blob [73; 68; 51; 2]))]);
         (lit "cover.jpg", File (Blob [255; 216; 255]))]);
   (lit "03 - Outro.flac", File (Blob [102; 76; 97; 67]))].

(** The id made of the one character SUPERSCRIPT TWO. *)
Definition superscript_two : pystr := [178].

Definition song_run : response * world :=
  download_song (provider_writing one_track) (lit "3135556")
                [(lit "quality", lit "FLAC")] demo_world.

Definition album_run : response * world :=
  download_album (provider_writing three_tracks) (lit "302127") [] demo_world.

Definition playlist_run : response * world :=
  download_playlist (provider_writing three_tracks) (lit "908622995") []
                    demo_world.

(** A provider that raises and writes nothing. *)
Definition failing_provider : provider_call -> node -> outcome unit * node :=
  fun _ fs0 => (Raise (lit "Track not found"), fs0).

(** A machine whose generator of temporary names yields nothing. *)
Definition no_names_world : world :=
  {| fs := Dir [(lit "tmp", Dir [])];
     tempdir := [lit "tmp"];
     tmp_names := [];
     log := [];
     provider_calls := [] |}.

Definition nested_track : list (pystr * node) :=
  [(lit "Artist", Dir [(lit "Song.mp3", File (Blob [73; 68; 51; 9]))])].

Definition nested_run : response * world :=
  download_song (provider_writing nested_track) (lit "3135556") [] demo_world.

Definition fs_after (files : list (pystr * node)) : node :=
  Dir [(lit "tmp", Dir [(lit "tmpk3x9_q2a", Dir files)])].


(** ** Strings: basic facts *)

Lemma str_eqb_refl (s : pystr) : str_eqb s s = true.
Proof.
  induction s as [|c s IH]; simpl; [reflexivity|].
  now rewrite N.eqb_refl, IH.
Qed.

Lemma str_eqb_eq (a b : pystr) : str_eqb a b = true <-> a = b.
Proof.
  split; [|intros ->; apply str_eqb_refl].
  revert b; induction a as [|x a IH]; intros [|y b]; simpl; try discriminate; auto.
  intros H; apply andb_true_iff in H as [Hx Hab].
  apply N.eqb_eq in Hx; subst; f_equal; auto.
Qed.

Lemma str_eqb_neq (a b : pystr) : str_eqb a b = false <-> a <> b.
Proof.
  rewrite <- str_eqb_eq. destruct (str_eqb a b); split; congruence.
Qed.

Lemma str_in_In (s : pystr) (l : list pystr) : str_in s l = true <-> In s l.
Proof.
  unfold str_in. rewrite existsb_exists. split.
  - intros (x & Hx & E). apply str_eqb_eq in E. now subst.
  - intros H. exists s. split; [assumption|apply str_eqb_refl].
Qed.

Lemma str_in_not_In (s : pystr) (l : list pystr) : str_in s l = false <-> ~ In s l.
Proof.
  rewrite <- str_in_In. destruct (str_in s l); split; congruence.
Qed.


(** ** [sanitize_filename]: facts *)

Lemma is_forbidden_In (c : N) : is_forbidden c = true <-> In c forbidden_chars.
Proof.
  unfold is_forbidden. rewrite existsb_exists. split.
  - intros (x & Hx & E). apply N.eqb_eq in E. now subst.
  - intros H. exists c. split; [assumption|apply N.eqb_refl].
Qed.

Lemma sanitize_filename_map (s : pystr) :
  sanitize_filename s = map (fun c => if is_forbidden c then underscore else c) s.
Proof.
  unfold sanitize_filename, re_sub_class.
  induction s as [|c s IH]; cbn [flat_map map]; [reflexivity|].
  rewrite IH. fold (is_forbidden c). now destruct (is_forbidden c).
Qed.

Lemma underscore_allowed : is_forbidden underscore = false.
Proof. reflexivity. Qed.

Lemma sanitize_filename_length (s : pystr) :
  length (sanitize_filename s) = length s.
Proof. rewrite sanitize_filename_map. apply length_map. Qed.

Lemma sanitize_filename_clean (s : pystr) (c : N) :
  In c (sanitize_filename s) -> is_forbidden c = false.
Proof.
  rewrite sanitize_filename_map, in_map_iff. intros (x & <- & _).
  destruct (is_forbidden x) eqn:E; [apply underscore_allowed|assumption].
Qed.

(** C5. [sanitize_filename] replaces each occurrence of one of the nine
    characters of the class by an underscore, leaves every other
    character as it is, and applying it twice gives what applying it
    once gives. *)
Theorem sanitize_filename_replaces_and_is_idempotent (s : pystr) :
  (forall i c, nth_error s i = Some c ->
     (In c forbidden_chars -> nth_error (sanitize_filename s) i = Some underscore)
     /\ (~ In c forbidden_chars -> nth_error (sanitize_filename s) i = Some c))
  /\ (forall i, nth_error s i = None -> nth_error (sanitize_filename s) i = None)
  /\ sanitize_filename (sanitize_filename s) = sanitize_filename s.
Proof.
  split; [|split].
  - intros i c Hi. rewrite sanitize_filename_map, nth_error_map, Hi. simpl.
    split; intros Hc.
    + apply is_forbidden_In in Hc. now rewrite Hc.
    + destruct (is_forbidden c) eqn:E; [|reflexivity].
      apply is_forbidden_In in E. contradiction.
  - intros i Hi. rewrite sanitize_filename_map, nth_error_map, Hi. reflexivity.
  - rewrite !sanitize_filename_map, map_map. apply map_ext. intros c.
    destruct (is_forbidden c) eqn:E; [|now rewrite E].
    now rewrite underscore_allowed.
Qed.

(** C10. For every input, [sanitize_filename] returns a string (it is a
    function, defined on every string), of the length of its argument,
    in which none of the nine characters of the class occurs. *)
Theorem sanitize_filename_total_same_length_clean (s : pystr) :
  exists r, sanitize_filename s = r
            /\ length r = length s
            /\ forall c, In c r -> ~ In c forbidden_chars.
Proof.
  exists (sanitize_filename s). split; [reflexivity|split].
  - apply sanitize_filename_length.
  - intros c Hc Hf. apply sanitize_filename_clean in Hc.
    apply is_forbidden_In in Hf. congruence.
Qed.

Example sanitize_acdc :
  sanitize_filename (lit "AC/DC: Best?") = lit "AC_DC_ Best_".
Proof. reflexivity. Qed.

(** ** Request validation *)

Lemma args_get_absent (args : query) (key default : pystr) :
  (forall v, ~ In (key, v) args) -> args_get args key default = default.
Proof.
  induction args as [|[k v] args IH]; intros H; simpl; [reflexivity|].
  destruct (str_eqb k key) eqn:E.
  - apply str_eqb_eq in E. subst. exfalso. apply (H v). now left.
  - apply IH. intros v' Hin. apply (H v'). now right.
Qed.

Lemma args_get_first (args : query) (key v default : pystr) :
  args_get ((key, v) :: args) key default = v.
Proof. simpl. now rewrite str_eqb_refl. Qed.

Lemma digit_ranges_above_ascii :
  forallb (fun r => (fst r =? 48) && (snd r =? 57) || (178 <=? fst r))
          digit_ranges = true.
Proof. vm_compute. reflexivity. Qed.

Lemma ascii_isdigit (c : N) : c < 128 -> char_isdigit c = is_ascii_digit c.
Proof.
  intros Hc. unfold char_isdigit.
  destruct (existsb (in_range c) digit_ranges) eqn:D.
  - apply existsb_exists in D as ([lo hi] & Hin & Hr).
    pose proof (proj1 (forallb_forall _ _) digit_ranges_above_ascii _ Hin) as Hlo.
    cbn [fst snd] in Hlo. unfold in_range in Hr. cbn [fst snd] in Hr.
    apply orb_true_iff in Hlo as [Hlo|Hlo].
    + apply andb_true_iff in Hlo as [H1 H2].
      apply N.eqb_eq in H1, H2. subst. symmetry. exact Hr.
    + apply N.leb_le in Hlo. apply andb_true_iff in Hr as [Hr _].
      apply N.leb_le in Hr. lia.
  - destruct (is_ascii_digit c) eqn:E; [|reflexivity].
    rewrite <- D. apply (proj2 (existsb_exists _ _)).
    exists (48, 57). split; [now left|exact E].
Qed.

(** On strings of ASCII characters, [str.isdigit] and the regular
    expression of the specification agree. *)
Lemma ascii_str_isdigit (s : pystr) :
  (forall c, In c s -> c < 128) -> str_isdigit s = re_ascii_digits s.
Proof.
  intros H. unfold str_isdigit, re_ascii_digits.
  destruct s as [|c0 s0]; [reflexivity|].
  remember (c0 :: s0) as s eqn:Es. clear Es.
  induction s as [|c s IH]; [reflexivity|]. cbn [forallb].
  rewrite ascii_isdigit by (apply H; now left).
  rewrite IH; [reflexivity|]. intros c' Hc'. apply H. now right.
Qed.

(** The message of a rejected quality is none of the messages of a
    rejected id. *)
Lemma msg_invalid_quality_distinct :
  msg_invalid_quality <> msg_invalid_song_id
  /\ msg_invalid_quality <> msg_invalid_album_id
  /\ msg_invalid_quality <> msg_invalid_playlist_id.
Proof. repeat split; intros H; vm_compute in H; discriminate H. Qed.

Section Validation.

Variable deezer : provider_call -> node -> outcome unit * node.

Ltac open_handlers :=
  unfold download_song, download_album, download_playlist, handle, try_except;
  cbv zeta.

(** C1, as amended. With an allowed quality, each of the three
    endpoints answers 400 with its invalid-id message to every id on
    which [str.isdigit] is false; this is the case of every id made of
    ASCII characters that does not match [^[0-9]+$]. *)
Theorem invalid_id_rejected (id : pystr) (args : query) (w : world) :
  In (requested_quality args) allowed_qualities ->
  str_isdigit id = false
  \/ (re_ascii_digits id = false /\ forall c, In c id -> c < 128) ->
  download_song deezer id args w = (Json 400 msg_invalid_song_id, w)
  /\ download_album deezer id args w = (Json 400 msg_invalid_album_id, w)
  /\ download_playlist deezer id args w = (Json 400 msg_invalid_playlist_id, w).
Proof.
  intros Hq Hid.
  assert (Hd : str_isdigit id = false).
  { destruct Hid as [H|[H Hascii]]; [exact H|].
    now rewrite ascii_str_isdigit. }
  apply str_in_In in Hq. unfold requested_quality in Hq.
  open_handlers. rewrite Hq, Hd. cbn [negb]. repeat split.
Qed.

(** C3. A quality that is none of [MP3_128], [MP3_320], [FLAC]
    (compared as strings, so case matters) makes each of the three
    endpoints answer 400 with the invalid-quality message, and the
    world is left as it was: no temporary directory is made, the
    provider is not called, nothing is logged. *)
Theorem invalid_quality_rejected (id : pystr) (args : query) (w : world) :
  ~ In (requested_quality args) allowed_qualities ->
  download_song deezer id args w = (Json 400 msg_invalid_quality, w)
  /\ download_album deezer id args w = (Json 400 msg_invalid_quality, w)
  /\ download_playlist deezer id args w = (Json 400 msg_invalid_quality, w).
Proof.
  intros Hq. apply str_in_not_In in Hq. unfold requested_quality in Hq.
  open_handlers. rewrite Hq. cbn [negb]. repeat split.
Qed.

(** C9. When both the quality and the id are invalid, the 400 answer
    carries the invalid-quality message, which is not the invalid-id
    message of the endpoint: the quality is checked first. *)
Theorem invalid_quality_reported_before_invalid_id
        (id : pystr) (args : query) (w : world) :
  ~ In (requested_quality args) allowed_qualities ->
  str_isdigit id = false ->
  (fst (download_song deezer id args w) = Json 400 msg_invalid_quality
   /\ fst (download_song deezer id args w) <> Json 400 msg_invalid_song_id)
  /\ (fst (download_album deezer id args w) = Json 400 msg_invalid_quality
      /\ fst (download_album deezer id args w) <> Json 400 msg_invalid_album_id)
  /\ (fst (download_playlist deezer id args w) = Json 400 msg_invalid_quality
      /\ fst (download_playlist deezer id args w) <> Json 400 msg_invalid_playlist_id).
Proof.
  intros Hq _. apply str_in_not_In in Hq. unfold requested_quality in Hq.
  destruct msg_invalid_quality_distinct as (D1 & D2 & D3).
  open_handlers. rewrite Hq. cbn [negb ret fst].
  repeat split; congruence.
Qed.

End Validation.

(** ** The filesystem: facts *)

Lemma entry_get_In (name : pystr) (es : list (pystr * node)) (n : node) :
  entry_get name es = Some n -> In (name, n) es.
Proof.
  induction es as [|[k m] es IH]; simpl; [discriminate|].
  destruct (str_eqb k name) eqn:E.
  - apply str_eqb_eq in E. intros [= ->]. left. now subst.
  - intros H. right. auto.
Qed.

Lemma In_entry_get (name : pystr) (es : list (pystr * node)) (n : node) :
  names_distinct (map fst es) = true -> In (name, n) es -> entry_get name es = Some n.
Proof.
  induction es as [|[k m] es IH]; simpl; [contradiction|].
  intros Hd Hin. apply andb_true_iff in Hd as [Hk Hd].
  destruct Hin as [[= -> ->]|Hin].
  - now rewrite str_eqb_refl.
  - destruct (str_eqb k name) eqn:E; [|auto].
    apply str_eqb_eq in E. subst k. exfalso.
    apply negb_true_iff, str_in_not_In in Hk. apply Hk.
    apply in_map_iff. now exists (name, n).
Qed.

Lemma entry_get_set_same (name : pystr) (new : node) (es : list (pystr * node)) :
  entry_get name (entry_set name new es) = Some new.
Proof.
  induction es as [|[k m] es IH]; simpl.
  - now rewrite str_eqb_refl.
  - destruct (str_eqb k name) eqn:E; simpl; now rewrite E.
Qed.

Lemma entry_get_set_other (name name' : pystr) (new : node) (es : list (pystr * node)) :
  name <> name' ->
  entry_get name' (entry_set name new es) = entry_get name' es.
Proof.
  intros Hne. induction es as [|[k m] es IH]; simpl.
  - apply str_eqb_neq in Hne. now rewrite Hne.
  - destruct (str_eqb k name) eqn:E; simpl.
    + apply str_eqb_eq in E. subst k.
      apply str_eqb_neq in Hne. now rewrite Hne.
    + destruct (str_eqb k name'); [reflexivity|exact IH].
Qed.

Lemma fs_lookup_app (n : node) (p q : path) :
  fs_lookup n (p ++ q) =
  match fs_lookup n p with
  | Some m => fs_lookup m q
  | None => None
  end.
Proof.
  revert n. induction p as [|name p IH]; intros n; simpl; [reflexivity|].
  destruct n as [c|es]; [reflexivity|].
  destruct (entry_get name es); [apply IH|reflexivity].
Qed.

(** What was put at [p] is found at [p]. *)
Lemma fs_lookup_put_same (n n' : node) (p : path) (new : node) :
  fs_put n p new = Some n' -> fs_lookup n' p = Some new.
Proof.
  revert n n'. induction p as [|name p IH]; intros n n'; simpl.
  - now intros [= ->].
  - destruct n as [c|es]; [discriminate|].
    destruct p as [|name2 p].
    + intros [= <-]. simpl. now rewrite entry_get_set_same.
    + destruct (entry_get name es) as [child|]; [|discriminate].
      destruct (fs_put child (name2 :: p) new) as [child'|] eqn:E; [|discriminate].
      intros [= <-]. cbn [fs_lookup]. rewrite entry_get_set_same.
      now apply (IH child).
Qed.

(** Putting something at [p] changes no path that neither leads to [p]
    nor goes through it. *)
Lemma fs_lookup_put_other (n n' : node) (p q : path) (new : node) :
  fs_put n p new = Some n' ->
  (forall r, p <> q ++ r) -> (forall r, q <> p ++ r) ->
  fs_lookup n' q = fs_lookup n q.
Proof.
  revert n n' q. induction p as [|name p IH]; intros n n' q Hput Hqp Hpq.
  - exfalso. apply (Hpq q). reflexivity.
  - destruct q as [|name' q]; [exfalso; apply (Hqp (name :: p)); reflexivity|].
    simpl in Hput. destruct n as [c|es]; [discriminate|].
    destruct (str_eqb name name') eqn:E.
    + apply str_eqb_eq in E. subst name'.
      assert (Hqp' : forall r, p <> q ++ r) by (intros r H; apply (Hqp r); simpl; congruence).
      assert (Hpq' : forall r, q <> p ++ r) by (intros r H; apply (Hpq r); simpl; congruence).
      destruct p as [|name2 p]; [exfalso; apply (Hpq' q); reflexivity|].
      destruct (entry_get name es) as [child|] eqn:G; [|discriminate].
      destruct (fs_put child (name2 :: p) new) as [child'|] eqn:F; [|discriminate].
      injection Hput as <-. cbn [fs_lookup]. rewrite entry_get_set_same, G.
      now apply (IH child).
    + apply str_eqb_neq in E.
      assert (G : forall child', fs_lookup (Dir (entry_set name child' es)) (name' :: q)
                                 = fs_lookup (Dir es) (name' :: q)).
      { intros child'. cbn [fs_lookup]. now rewrite entry_get_set_other. }
      destruct p as [|name2 p].
      * injection Hput as <-. apply G.
      * destruct (entry_get name es) as [child|]; [|discriminate].
        destruct (fs_put child (name2 :: p) new) as [child'|]; [|discriminate].
        injection Hput as <-. apply G.
Qed.

Lemma fs_lookup_file_at (n : node) (p : path) (c : content) :
  fs_lookup n p = Some (File c) -> file_at n p c.
Proof.
  revert n. induction p as [|name p IH]; intros n; simpl.
  - intros [= ->]. constructor.
  - destruct n as [c'|es]; [discriminate|].
    destruct (entry_get name es) as [child|] eqn:G; [|discriminate].
    intros H. econstructor; [apply entry_get_In; exact G|now apply IH].
Qed.

Lemma unique_names_child (es : list (pystr * node)) (name : pystr) (child : node) :
  unique_names (Dir es) = true -> In (name, child) es -> unique_names child = true.
Proof.
  simpl. intros H Hin. apply andb_true_iff in H as [_ H].
  rewrite forallb_forall in H. apply (H (name, child) Hin).
Qed.

Lemma file_at_fs_lookup (n : node) (p : path) (c : content) :
  unique_names n = true -> file_at n p c -> fs_lookup n p = Some (File c).
Proof.
  intros Hu H. induction H as [c|es name child rest c Hin H IH]; [reflexivity|].
  cbn [fs_lookup]. rewrite (In_entry_get name es child).
  - apply IH. eapply unique_names_child; eassumption.
  - simpl in Hu. now apply andb_true_iff in Hu as [Hu _].
  - exact Hin.
Qed.

Lemma fs_lookup_unique_names (n m : node) (p : path) :
  unique_names n = true -> fs_lookup n p = Some m -> unique_names m = true.
Proof.
  revert n. induction p as [|name p IH]; intros n Hu; simpl.
  - now intros [= <-].
  - destruct n as [c|es]; [discriminate|].
    destruct (entry_get name es) as [child|] eqn:G; [|discriminate].
    apply IH. eapply unique_names_child; [exact Hu|apply entry_get_In; exact G].
Qed.

(** *** The walk finds files that are there *)

Lemma nondirs_In (es : list (pystr * node)) (file : pystr) :
  In file (nondirs es) -> exists c, In (file, File c) es.
Proof.
  unfold nondirs. rewrite in_flat_map. intros ([name [c|es']] & Hin & H).
  - destruct H as [<-|[]]. now exists c.
  - destruct H.
Qed.

Lemma walk_sound (n : node) :
  forall top root dirs files file,
    In (root, dirs, files) (walk top n) -> In file files ->
    exists rel c,
      path_join root file = top ++ rel /\ rel <> [] /\ basename rel = file
      /\ file_at n rel c.
Proof.
  induction n as [c|es IH] using node_induction;
    intros top root dirs files file Hwalk Hfile; [destruct Hwalk|].
  cbn [walk] in Hwalk. destruct Hwalk as [[= <- <- <-]|Hwalk].
  - apply nondirs_In in Hfile as [c Hc].
    exists [file], c. repeat split; [discriminate|].
    econstructor; [exact Hc|constructor].
  - apply in_flat_map in Hwalk as ([name child] & Hin & Hwalk).
    rewrite Forall_forall in IH. specialize (IH _ Hin). cbn [snd] in IH.
    destruct (IH _ _ _ _ _ Hwalk Hfile) as (rel & c & E & Hne & Hb & Hat).
    exists (name :: rel), c. repeat split.
    + rewrite E. unfold path_join. now rewrite <- app_assoc.
    + discriminate.
    + unfold basename in *. destruct rel; [contradiction|exact Hb].
    + econstructor; eassumption.
Qed.

Lemma discovered_sound (fs0 : node) (temp_dir f : path) :
  In f (discovered fs0 temp_dir) ->
  exists n rel c,
    fs_lookup fs0 temp_dir = Some n /\ f = temp_dir ++ rel /\ rel <> []
    /\ endswith_any (basename rel) audio_suffixes = true /\ file_at n rel c.
Proof.
  unfold discovered, os_walk. intros H.
  apply in_flat_map in H as ([[root dirs] files] & Hwalk & H).
  apply in_flat_map in H as (file & Hfile & H).
  destruct (endswith_any file audio_suffixes) eqn:Ha; [|destruct H].
  destruct H as [<-|[]].
  destruct (fs_lookup fs0 temp_dir) as [n|]; [|destruct Hwalk].
  destruct (walk_sound n _ _ _ _ _ Hwalk Hfile) as (rel & c & E & Hne & Hb & Hat).
  exists n, rel, c. rewrite Hb. auto.
Qed.

Lemma discovered_nil (fs0 : node) (temp_dir : path) :
  no_audio_below fs0 temp_dir -> discovered fs0 temp_dir = [].
Proof.
  intros H. destruct (discovered fs0 temp_dir) as [|f l] eqn:E; [reflexivity|].
  assert (Hin : In f (discovered fs0 temp_dir)) by (rewrite E; now left).
  apply discovered_sound in Hin as (n & rel & c & Hn & _ & _ & Ha & Hat).
  rewrite (H n rel c Hn Hat) in Ha. discriminate.
Qed.

(** ** The monad: facts *)

Lemma bind_ok {A B} (m : M A) (k : A -> M B) (w w' : world) (a : A) :
  m w = (Ok a, w') -> bind m k w = k a w'.
Proof. unfold bind. now intros ->. Qed.

Lemma bind_raise {A B} (m : M A) (k : A -> M B) (w w' : world) (e : exn) :
  m w = (Raise e, w') -> bind m k w = (Raise e, w').
Proof. unfold bind. now intros ->. Qed.

Lemma bind_inv_ok {A B} (m : M A) (k : A -> M B) (w w' : world) (b : B) :
  bind m k w = (Ok b, w') ->
  exists a w1, m w = (Ok a, w1) /\ k a w1 = (Ok b, w').
Proof.
  unfold bind. destruct (m w) as [[a|e] w1]; [|discriminate].
  intros H. now exists a, w1.
Qed.

(** ** Discovery of the artifacts *)

Section Discovery.

Variable deezer : provider_call -> node -> outcome unit * node.

Lemma provider_run (call : provider_call) (w : world) (r : outcome unit) (fs' : node) :
  deezer call (fs w) = (r, fs') -> provider deezer call w = (r, with_call w call fs').
Proof. unfold provider. now intros ->. Qed.

(** C4. A request that passes validation, for which the temporary
    directory is made and the provider returns leaving below it no file
    whose name ends in [.mp3] or [.flac], is answered 500 with the
    no-artifacts message of the endpoint. *)
Theorem no_artifacts_is_500 (id : pystr) (args : query) (w w1 : world) (temp_dir : path) :
  In (requested_quality args) allowed_qualities ->
  str_isdigit id = true ->
  mkdtemp w = (Ok temp_dir, w1) ->
  (writes_no_audio deezer (track_call id (requested_quality args) temp_dir)
                   (fs w1) temp_dir ->
   fst (download_song deezer id args w) = Json 500 msg_no_song_file)
  /\ (writes_no_audio deezer (album_call id (requested_quality args) temp_dir)
                      (fs w1) temp_dir ->
      fst (download_album deezer id args w) = Json 500 msg_no_files)
  /\ (writes_no_audio deezer (playlist_call id (requested_quality args) temp_dir)
                      (fs w1) temp_dir ->
      fst (download_playlist deezer id args w) = Json 500 msg_no_files).
Proof.
  intros Hq Hd Hmk. apply str_in_In in Hq. unfold requested_quality in *.
  repeat split; intros (fs2 & Hcall & Hnone);
    unfold download_song, download_album, download_playlist, handle, try_except;
    cbv zeta; rewrite Hq, Hd; cbn [negb];
    rewrite (bind_ok _ _ _ _ _ Hmk);
    unfold bind at 1; unfold logger_info at 1;
    (erewrite bind_ok by (apply provider_run; exact Hcall));
    unfold bind at 1, find_audio_files at 1; cbn [fs with_call];
    rewrite (discovered_nil _ _ Hnone); reflexivity.
Qed.

(** When the provider raises, the answer is 500 with the message of the
    exception after the text of the endpoint. *)
Lemma provider_error_is_500 (id : pystr) (args : query) (w w1 : world)
      (temp_dir : path) (e : exn) (fs2 : node) :
  In (requested_quality args) allowed_qualities ->
  str_isdigit id = true ->
  mkdtemp w = (Ok temp_dir, w1) ->
  (deezer (track_call id (requested_quality args) temp_dir) (fs w1) = (Raise e, fs2) ->
   fst (download_song deezer id args w)
   = Json 500 (lit "Error al descargar la canci" ++ [o_acute] ++ lit "n: " ++ e))
  /\ (deezer (album_call id (requested_quality args) temp_dir) (fs w1) = (Raise e, fs2) ->
      fst (download_album deezer id args w)
      = Json 500 (lit "Error al descargar el " ++ [a_acute] ++ lit "lbum: " ++ e))
  /\ (deezer (playlist_call id (requested_quality args) temp_dir) (fs w1) = (Raise e, fs2) ->
      fst (download_playlist deezer id args w)
      = Json 500 (lit "Error al descargar la playlist: " ++ e)).
Proof.
  intros Hq Hd Hmk. apply str_in_In in Hq. unfold requested_quality in *.
  repeat split; intros Hcall;
    unfold download_song, download_album, download_playlist, handle, try_except;
    cbv zeta; rewrite Hq, Hd; cbn [negb];
    rewrite (bind_ok _ _ _ _ _ Hmk);
    unfold bind at 1; unfold logger_info at 1;
    (erewrite bind_raise by (apply provider_run; exact Hcall));
    reflexivity.
Qed.

End Discovery.

(** ** Names and relative paths *)

Lemma endswith_suffix (s suffix : pystr) :
  endswith s suffix = true -> exists pre, s = pre ++ suffix.
Proof.
  unfold endswith. intros H. apply str_eqb_eq in H.
  exists (firstn (length s - length suffix) s).
  rewrite <- H at 2. symmetry. apply firstn_skipn.
Qed.

(** A name that ends in [.zip] is not the name of an audio file. *)
Lemma zip_name_not_audio (s : pystr) :
  endswith_any (s ++ lit ".zip") audio_suffixes = false.
Proof.
  apply not_true_is_false. intros H.
  apply existsb_exists in H as (suffix & Hin & H).
  apply endswith_suffix in H as [pre E].
  apply (f_equal (@rev N)) in E. rewrite !rev_app_distr in E.
  destruct Hin as [<-|[<-|[]]]; simpl in E; discriminate E.
Qed.

Lemma relpath_list_below (temp_dir rel : path) :
  relpath_list (temp_dir ++ rel) temp_dir = rel.
Proof.
  induction temp_dir as [|x d IH]; simpl.
  - now destruct rel.
  - now rewrite str_eqb_refl.
Qed.

(** The path of a file below [temp_dir], relative to [temp_dir]. *)
Lemma relpath_below (temp_dir rel : path) :
  rel <> [] -> relpath (temp_dir ++ rel) temp_dir = rel.
Proof.
  intros H. unfold relpath. rewrite relpath_list_below. now destruct rel.
Qed.

(** ** Writing the archive *)

Lemma commit_inv (p : path) (new : option node) (w w' : world) :
  commit p new w = (Ok tt, w') -> exists fs', new = Some fs' /\ w' = with_fs w fs'.
Proof.
  unfold commit. destruct new as [fs'|]; [|discriminate].
  intros [= <-]. now exists fs'.
Qed.

Lemma zipfile_open_inv (zip_path : path) (w w' : world) :
  zipfile_open zip_path w = (Ok tt, w') ->
  (forall es, fs_lookup (fs w) zip_path <> Some (Dir es))
  /\ fs_lookup (fs w') zip_path = Some (File (ZipArchive []))
  /\ (forall q, apart zip_path q -> fs_lookup (fs w') q = fs_lookup (fs w) q)
  /\ w' = with_fs w (fs w').
Proof.
  unfold zipfile_open. intros H.
  assert (Hnd : forall es, fs_lookup (fs w) zip_path <> Some (Dir es)).
  { intros es E. rewrite E in H. discriminate H. }
  assert (Hc : commit zip_path (fs_put (fs w) zip_path (File (ZipArchive []))) w
               = (Ok tt, w')).
  { destruct (fs_lookup (fs w) zip_path) as [[c|es]|]; try exact H.
    exfalso. now apply (Hnd es). }
  apply commit_inv in Hc as (fs' & Hput & ->). cbn [fs with_fs].
  split; [exact Hnd|]. split; [eapply fs_lookup_put_same; exact Hput|].
  split; [|reflexivity].
  intros q [Hq1 Hq2]. eapply fs_lookup_put_other; eassumption.
Qed.

Lemma zipf_write_inv (zip_path file_path arcname : path) (w w' : world) :
  zipf_write zip_path file_path arcname w = (Ok tt, w') ->
  exists n members,
    fs_lookup (fs w) file_path = Some n
    /\ fs_lookup (fs w) zip_path = Some (File (ZipArchive members))
    /\ fs_lookup (fs w') zip_path
       = Some (File (ZipArchive (members ++ [member_of n arcname])))
    /\ (forall q, apart zip_path q -> fs_lookup (fs w') q = fs_lookup (fs w) q)
    /\ w' = with_fs w (fs w').
Proof.
  unfold zipf_write. intros H.
  destruct (fs_lookup (fs w) file_path) as [n|] eqn:Hn; [|discriminate].
  destruct (fs_lookup (fs w) zip_path) as [[[data|members]|es]|] eqn:Hz; try discriminate.
  apply commit_inv in H as (fs' & Hput & ->). cbn [fs with_fs].
  exists n, members. split; [reflexivity|]. split; [reflexivity|].
  split; [|split; [|reflexivity]].
  - apply fs_lookup_put_same in Hput. rewrite Hput. unfold member_of.
    now destruct n.
  - intros q [Hq1 Hq2]. eapply fs_lookup_put_other; eassumption.
Qed.

Lemma Forall2_impl_In {A B} (P Q : A -> B -> Prop) (l : list A) (l' : list B) :
  (forall x y, In x l -> P x y -> Q x y) -> Forall2 P l l' -> Forall2 Q l l'.
Proof.
  intros H HP. induction HP as [|x y l l' Hxy HP IH]; constructor.
  - apply H; [now left|exact Hxy].
  - apply IH. intros x' y' Hx'. apply H. now right.
Qed.

(** The loop over the discovered files: the archive gets one member for
    each of them, in their order, and nothing else changes. *)
Lemma for_each_zipf_write_inv (zip_path temp_dir : path) (files : list path) :
  forall (w w' : world) (members : list (path * content)),
    for_each files
      (fun file_path => zipf_write zip_path file_path (relpath file_path temp_dir)) w
    = (Ok tt, w') ->
    fs_lookup (fs w) zip_path = Some (File (ZipArchive members)) ->
    (forall f, In f files -> apart zip_path f) ->
    exists added,
      fs_lookup (fs w') zip_path = Some (File (ZipArchive (members ++ added)))
      /\ Forall2 (fun f m => exists n, fs_lookup (fs w) f = Some n
                                       /\ m = member_of n (relpath f temp_dir))
                 files added
      /\ (forall q, apart zip_path q -> fs_lookup (fs w') q = fs_lookup (fs w) q)
      /\ w' = with_fs w (fs w').
Proof.
  induction files as [|f files IH]; intros w w' members H Hz Hapart.
  - injection H as <-. exists []. rewrite app_nil_r.
    repeat split; [exact Hz|constructor|now destruct w].
  - cbn [for_each] in H. apply bind_inv_ok in H as ([] & w1 & Hw & H).
    apply zipf_write_inv in Hw as (n & members0 & Hn & Hz0 & Hz1 & Hsame & Hw1).
    rewrite Hz in Hz0. injection Hz0 as <-.
    destruct (IH w1 w' _ H Hz1) as (added & Hz' & Hall & Hsame' & Hw').
    { intros f' Hf'. apply Hapart. now right. }
    exists (member_of n (relpath f temp_dir) :: added).
    split; [now rewrite <- app_assoc in Hz'|].
    split; [|split].
    + constructor; [now exists n|].
      eapply Forall2_impl_In; [|exact Hall].
      intros f' m Hf' (n' & Hn' & ->). exists n'. split; [|reflexivity].
      rewrite <- Hn'. symmetry. apply Hsame. apply Hapart. now right.
    + intros q Hq. now rewrite Hsame', Hsame.
    + rewrite Hw', Hw1 at 1. reflexivity.
Qed.

(** *** What is discovered, in a filesystem that lists each name once *)

Lemma map_app_of_prefixed (temp_dir : path) (P : path -> Prop) (l : list path) :
  (forall f, In f l -> exists rel, f = temp_dir ++ rel /\ P rel) ->
  exists rels, l = map (app temp_dir) rels /\ Forall P rels.
Proof.
  induction l as [|f l IH]; intros H.
  - exists []. split; [reflexivity|constructor].
  - destruct (H f (or_introl eq_refl)) as (rel & -> & Hrel).
    destruct IH as (rels & -> & Hrels); [intros f' Hf'; apply H; now right|].
    exists (rel :: rels). split; [reflexivity|now constructor].
Qed.

Lemma discovered_artifacts (fs0 : node) (temp_dir : path) :
  unique_names fs0 = true ->
  exists rels,
    discovered fs0 temp_dir = map (app temp_dir) rels
    /\ Forall (artifact fs0 temp_dir) rels.
Proof.
  intros Hu. apply map_app_of_prefixed. intros f Hf.
  apply discovered_sound in Hf as (n & rel & c & Hn & -> & Hne & Ha & Hat).
  exists rel. split; [reflexivity|]. repeat split; [exact Hne|exact Ha|].
  exists c. rewrite fs_lookup_app, Hn. apply file_at_fs_lookup; [|exact Hat].
  eapply fs_lookup_unique_names; eassumption.
Qed.

(** An artifact and the archive being written are apart. *)
Lemma artifact_apart_zip (fs0 : node) (temp_dir rel : path) (z : pystr) :
  (forall es, fs_lookup fs0 (path_join temp_dir z) <> Some (Dir es)) ->
  endswith_any z audio_suffixes = false ->
  artifact fs0 temp_dir rel ->
  apart (path_join temp_dir z) (temp_dir ++ rel).
Proof.
  unfold path_join. intros Hnd Hz (Hne & Ha & c & Hc).
  assert (Hrel : rel <> [z]).
  { intros ->. unfold basename in Ha. cbn [last] in Ha. congruence. }
  split; intros r E.
  - rewrite <- app_assoc in E. apply app_inv_head in E.
    destruct rel as [|x rel]; [contradiction|].
    injection E as -> E. symmetry in E. apply app_eq_nil in E as [-> _].
    now apply Hrel.
  - rewrite <- app_assoc in E. apply app_inv_head in E. subst rel.
    destruct r as [|y r]; [now apply Hrel|].
    change (temp_dir ++ [z] ++ y :: r) with (temp_dir ++ [z] ++ (y :: r)) in Hc.
    rewrite app_assoc, fs_lookup_app in Hc.
    destruct (fs_lookup fs0 (temp_dir ++ [z])) as [[c'|es]|] eqn:E; try discriminate.
    now apply (Hnd es).
Qed.

(** The members written for the artifacts: each under its relative
    path, with the content of the file. *)
Lemma members_of_artifacts (fs0 fs1 : node) (temp_dir : path) (rels : list path) :
  forall added,
    Forall (artifact fs0 temp_dir) rels ->
    (forall rel, artifact fs0 temp_dir rel ->
                 fs_lookup fs1 (temp_dir ++ rel) = fs_lookup fs0 (temp_dir ++ rel)) ->
    Forall2 (fun f m => exists n, fs_lookup fs1 f = Some n
                                  /\ m = member_of n (relpath f temp_dir))
            (map (app temp_dir) rels) added ->
    map fst added = rels
    /\ Forall2 (fun rel m => fs_lookup fs0 (temp_dir ++ rel) = Some (File (snd m)))
               rels added.
Proof.
  induction rels as [|rel rels IH]; intros added Hart Hsame Hall.
  - inversion Hall. split; [reflexivity|constructor].
  - cbn [map] in Hall. inversion Hall as [|f m fs' added' (n & Hn & Hm) Hall' E1 E2].
    subst. inversion Hart as [|? ? Hrel Hart']. subst.
    destruct (IH added' Hart' Hsame Hall') as [Hnames Hcont].
    rewrite (Hsame rel Hrel) in Hn.
    destruct Hrel as (Hne & _ & c & Hc). rewrite Hc in Hn. injection Hn as <-.
    cbn [member_of map fst]. rewrite (relpath_below _ _ Hne).
    split; [now rewrite Hnames|]. constructor; [exact Hc|exact Hcont].
Qed.

(** ** The steps of a handler, one by one *)

Lemma bind_inv_raise {A B} (m : M A) (k : A -> M B) (w w' : world) (e : exn) :
  bind m k w = (Raise e, w') ->
  m w = (Raise e, w')
  \/ exists a w1, m w = (Ok a, w1) /\ k a w1 = (Raise e, w').
Proof.
  unfold bind. destruct (m w) as [[a|e0] w1].
  - intros H. right. exists a, w1. split; [reflexivity|exact H].
  - intros [= -> ->]. now left.
Qed.

Lemma send_file_inv (file : path) (name mimetype : pystr) (w w' : world) (r : response) :
  send_file file name mimetype w = (Ok r, w') ->
  exists c, fs_lookup (fs w) file = Some (File c)
            /\ r = Attachment file name mimetype c /\ w' = w.
Proof.
  unfold send_file. destruct (fs_lookup (fs w) file) as [[c|es]|]; try discriminate.
  intros [= <- <-]. now exists c.
Qed.

(** ** Concrete runs *)

Lemma mkdtemp_demo_world :
  exists w1, mkdtemp demo_world = (Ok demo_temp_dir, w1)
             /\ fs w1 = fs_after [].
Proof. eexists. split; reflexivity. Defined.

(** C1: the claim fails on an id of one non-ASCII digit. The id does not
    match [^[0-9]+$], the quality is the default one, and no endpoint
    answers 400: each goes on to make the temporary directory and to
    call the provider with a link ending in that id. *)
Lemma superscript_two_id_is_not_rejected :
  re_ascii_digits superscript_two = false
  /\ In (requested_quality []) allowed_qualities
  /\ fst (download_song (provider_writing no_files) superscript_two []
                        demo_world)
     = Json 500 msg_no_song_file
  /\ fst (download_song (provider_writing no_files) superscript_two []
                        demo_world)
     <> Json 400 msg_invalid_song_id
  /\ fst (download_album (provider_writing no_files) superscript_two []
                         demo_world)
     <> Json 400 msg_invalid_album_id
  /\ fst (download_playlist (provider_writing no_files) superscript_two []
                            demo_world)
     <> Json 400 msg_invalid_playlist_id
  /\ provider_calls
       (snd (download_song (provider_writing no_files) superscript_two []
                           demo_world))
     = [track_call superscript_two (lit "MP3_320") demo_temp_dir].
Proof.
  split; [reflexivity|]. split; [right; left; reflexivity|].
  split; [vm_compute; reflexivity|].
  split; [vm_compute; discriminate|].
  split; [vm_compute; discriminate|].
  split; [vm_compute; discriminate|].
  vm_compute. reflexivity.
Qed.

Lemma invalid_id_rejected_witness :
  In (requested_quality []) allowed_qualities
  /\ re_ascii_digits (lit "12a") = false
  /\ download_song (provider_writing one_track) (lit "12a") [] demo_world
     = (Json 400 msg_invalid_song_id, demo_world)
  /\ download_album (provider_writing one_track) (lit "12a") [] demo_world
     = (Json 400 msg_invalid_album_id, demo_world)
  /\ download_playlist (provider_writing one_track) (lit "12a") [] demo_world
     = (Json 400 msg_invalid_playlist_id, demo_world).
Proof.
  split; [right; left; reflexivity|]. split; [reflexivity|].
  apply (invalid_id_rejected (provider_writing one_track) (lit "12a") []
                             demo_world).
  - right; left; reflexivity.
  - right. split; [reflexivity|].
    intros c Hc. vm_compute in Hc.
    destruct Hc as [<-|[<-|[<-|[]]]]; reflexivity.
Defined.

Lemma invalid_quality_rejected_witness :
  ~ In (requested_quality [(lit "quality", lit "flac")]) allowed_qualities
  /\ download_song (provider_writing one_track) (lit "3135556")
                   [(lit "quality", lit "flac")] demo_world
     = (Json 400 msg_invalid_quality, demo_world).
Proof.
  assert (H : ~ In (requested_quality [(lit "quality", lit "flac")]) allowed_qualities).
  { vm_compute. intros [H|[H|[H|[]]]]; discriminate H. }
  split; [exact H|].
  apply (invalid_quality_rejected (provider_writing one_track)
                                  (lit "3135556") _ demo_world H).
Defined.

Lemma invalid_quality_reported_before_invalid_id_witness :
  fst (download_album (provider_writing one_track) (lit "abc")
                      [(lit "quality", lit "flac")] demo_world)
  = Json 400 msg_invalid_quality.
Proof.
  apply (invalid_quality_reported_before_invalid_id
           (provider_writing one_track) (lit "abc")
           [(lit "quality", lit "flac")] demo_world).
  - vm_compute. intros [H|[H|[H|[]]]]; discriminate H.
  - reflexivity.
Defined.

Lemma cover_only_no_audio : no_audio_below (fs_after cover_only) demo_temp_dir.
Proof.
  intros n rel c Hn Hat. injection Hn as <-.
  inversion Hat as [|es name child rest c' Hin Hat' E1 E2 E3]. subst.
  destruct Hin as [Hin|[]]. injection Hin as <- <-.
  inversion Hat'. reflexivity.
Defined.

Lemma no_artifacts_is_500_witness :
  fst (download_song (provider_writing cover_only) (lit "3135556") []
                     demo_world)
  = Json 500 msg_no_song_file
  /\ fst (download_album (provider_writing cover_only) (lit "3135556") []
                         demo_world)
     = Json 500 msg_no_files
  /\ fst (download_playlist (provider_writing cover_only) (lit "3135556") []
                            demo_world)
     = Json 500 msg_no_files.
Proof.
  destruct mkdtemp_demo_world as (w1 & Hmk & Hfs).
  destruct (no_artifacts_is_500
              (provider_writing cover_only) (lit "3135556") []
              demo_world w1 demo_temp_dir) as (Hsong & Halbum & Hplaylist).
  - right; left; reflexivity.
  - reflexivity.
  - exact Hmk.
  - split; [|split]; [apply Hsong|apply Halbum|apply Hplaylist];
      (exists (fs_after cover_only); split;
       [rewrite Hfs; reflexivity|exact cover_only_no_audio]).
Defined.

Lemma sanitize_filename_replaces_and_is_idempotent_witness :
  nth_error (sanitize_filename (lit "AC/DC: Best?")) 2 = Some underscore
  /\ nth_error (sanitize_filename (lit "AC/DC: Best?")) 3 = Some 68.
Proof.
  destruct (sanitize_filename_replaces_and_is_idempotent (lit "AC/DC: Best?"))
    as (Hat & _ & _).
  split.
  - apply (Hat 2%nat 47); [reflexivity|]. vm_compute. auto 10.
  - apply (Hat 3%nat 68); [reflexivity|]. vm_compute.
    intros H. repeat (destruct H as [H|H]; [discriminate H|]). exact H.
Defined.

(** ** Examples *)

(** A track at quality [MP3_320] whose file needs no new name: the file
    is found and kept, and the request is answered 500, with the text
    of the [AttributeError] of [response.call_after_request]. *)
Example artist_title_mp3 :
  download_song
    (provider_writing [(lit "Artist - Title.mp3", File (Blob [1]))])
    (lit "3135556") [] demo_world
  = (Json 500 (song_error attribute_error),
     {| fs := fs_after [(lit "Artist - Title.mp3", File (Blob [1]))];
        tempdir := [lit "tmp"];
        tmp_names := [lit "m0p4zz1b"];
        log := [(INFO, song_start (lit "3135556") (lit "MP3_320"));
                (INFO, lit "Canci" ++ [o_acute] ++ lit "n descargada exitosamente: "
                           ++ lit "Artist - Title.mp3");
                (ERROR, song_error_record attribute_error)];
        provider_calls := [track_call (lit "3135556") (lit "MP3_320") demo_temp_dir] |}).
Proof. vm_compute. reflexivity. Qed.

(** * Further properties of the handlers *)

(** ** The filesystem: putting and deleting below a directory *)

Lemma fs_put_app (n m : node) (d p : path) (new : node) :
  fs_lookup n d = Some m ->
  fs_put n (d ++ p) new =
  match fs_put m p new with
  | Some m' => fs_put n d m'
  | None => None
  end.
Proof.
  revert n. induction d as [|x d IH]; intros n Hn.
  - injection Hn as <-. cbn [app]. destruct (fs_put n p new); reflexivity.
  - cbn [fs_lookup] in Hn. destruct n as [c|es]; [discriminate|].
    destruct (entry_get x es) as [child|] eqn:G; [|discriminate].
    specialize (IH child Hn).
    change ((x :: d) ++ p) with (x :: (d ++ p)). cbn [fs_put]. rewrite G.
    destruct (d ++ p) as [|y q] eqn:E.
    + apply app_eq_nil in E as [-> ->]. injection Hn as <-. reflexivity.
    + rewrite IH. destruct (fs_put m p new) as [m'|]; [|reflexivity].
      destruct d as [|y' d']; reflexivity.
Qed.

Lemma fs_del_app (n m : node) (d p : path) :
  fs_lookup n d = Some m -> p <> [] ->
  fs_del n (d ++ p) =
  match fs_del m p with
  | Some m' => fs_put n d m'
  | None => None
  end.
Proof.
  revert n. induction d as [|x d IH]; intros n Hn Hp.
  - injection Hn as <-. cbn [app]. destruct (fs_del n p); reflexivity.
  - cbn [fs_lookup] in Hn. destruct n as [c|es]; [discriminate|].
    destruct (entry_get x es) as [child|] eqn:G; [|discriminate].
    specialize (IH child Hn Hp).
    change ((x :: d) ++ p) with (x :: (d ++ p)). cbn [fs_del]. rewrite G.
    destruct (d ++ p) as [|y q] eqn:E.
    + apply app_eq_nil in E as [_ ->]. contradiction.
    + rewrite IH. destruct (fs_del m p) as [m'|]; [|reflexivity].
      destruct d as [|y' d']; cbn [fs_put]; rewrite ?G; reflexivity.
Qed.

(** ** Invariants of the computations *)

Lemma preserves_ret {A} (I : world -> Prop) (a : A) : preserves I (ret a).
Proof. intros w r w' [= <- <-] H. exact H. Qed.

Lemma preserves_raise {A} (I : world -> Prop) (e : exn) : preserves I (@raise A e).
Proof. intros w r w' [= <- <-] H. exact H. Qed.

Lemma preserves_bind {A B} (I : world -> Prop) (m : M A) (k : A -> M B) :
  preserves I m -> (forall a, preserves I (k a)) -> preserves I (bind m k).
Proof.
  intros Hm Hk w r w' H HI. unfold bind in H.
  destruct (m w) as [[a|e] w1] eqn:E.
  - apply (Hk a w1 r w' H). apply (Hm w _ w1 E HI).
  - injection H as <- <-. apply (Hm w _ w1 E HI).
Qed.

Lemma preserves_for_each {A} (I : world -> Prop) (l : list A) (body : A -> M unit) :
  (forall x, preserves I (body x)) -> preserves I (for_each l body).
Proof.
  intros Hb. induction l as [|x l IH]; cbn [for_each].
  - apply preserves_ret.
  - apply preserves_bind; [apply Hb|intros _; exact IH].
Qed.

(** A property of the world that does not look at the filesystem nor at
    the log is kept by every call but the provider's and [mkdtemp]. *)
Section Blind.

Variable I : world -> Prop.
Hypothesis I_fs : forall w fs', I w -> I (with_fs w fs').
Hypothesis I_record : forall w lvl msg, I w -> I (with_record w lvl msg).

Ltac by_cases H :=
  repeat match type of H with
         | context [match ?x with _ => _ end] => destruct x
         end;
  injection H as <- <-; auto.

Lemma blind_logger_info (msg : pystr) : preserves I (logger_info msg).
Proof. intros w r w' [= <- <-] H. now apply I_record. Qed.

Lemma blind_logger_error (msg : pystr) : preserves I (logger_error msg).
Proof. intros w r w' [= <- <-] H. now apply I_record. Qed.

Lemma blind_os_rename (src dst : path) : preserves I (os_rename src dst).
Proof.
  intros w r w' H HI.
  unfold os_rename, commit, ENOENT, ENOTDIR, EISDIR, ENOTEMPTY, raise in H.
  by_cases H.
Qed.

Lemma blind_find_audio_files (temp_dir : path) : preserves I (find_audio_files temp_dir).
Proof. intros w r w' [= <- <-] H. exact H. Qed.

Lemma blind_zipfile_open (zip_path : path) : preserves I (zipfile_open zip_path).
Proof.
  intros w r w' H HI.
  unfold zipfile_open, commit, ENOENT, EISDIR, raise in H. by_cases H.
Qed.

Lemma blind_zipf_write (zip_path file_path arcname : path) :
  preserves I (zipf_write zip_path file_path arcname).
Proof.
  intros w r w' H HI.
  unfold zipf_write, commit, ENOENT, raise in H. by_cases H.
Qed.

Lemma blind_send_file (file : path) (name mimetype : pystr) :
  preserves I (send_file file name mimetype).
Proof.
  intros w r w' H HI.
  unfold send_file, ENOENT, EISDIR, raise in H. by_cases H.
Qed.

Lemma blind_call_after_request {B} (r : response) (k : (callback -> M callback) -> M B) :
  preserves I (bind (call_after_request r) k).
Proof. intros w r' w' [= <- <-] H. exact H. Qed.

End Blind.

(** *** What [mkdtemp] does *)

Lemma mkdtemp_loop_inv (names : list pystr) :
  forall seq w d w1,
    mkdtemp_loop names seq w = (Ok d, w1) ->
    (exists name, d = path_join (tempdir w) (lit "tmp" ++ name))
    /\ fs_lookup (fs w) d = None
    /\ fs_put (fs w) d (Dir []) = Some (fs w1)
    /\ provider_calls w1 = provider_calls w
    /\ log w1 = log w
    /\ tempdir w1 = tempdir w.
Proof.
  induction names as [|name names IH]; intros seq w d w1 H; [discriminate|].
  cbn [mkdtemp_loop] in H. destruct (TMP_MAX <=? seq); [discriminate|].
  destruct (fs_lookup (fs w) (path_join (tempdir w) (lit "tmp" ++ name))) as [n|] eqn:E.
  - apply IH in H. exact H.
  - unfold bind, os_mkdir in H. cbn [fs tempdir] in H. rewrite E in H.
    destruct (fs_lookup (fs w) (parent _)) as [[c|es]|]; try discriminate.
    unfold commit in H. cbn [fs] in H.
    destruct (fs_put (fs w) _ (Dir [])) as [fs1|] eqn:P; [|discriminate].
    injection H as <- <-. cbn [fs with_fs provider_calls log tempdir].
    split; [now exists name|]. auto.
Qed.

Lemma mkdtemp_inv (w w1 : world) (d : path) :
  mkdtemp w = (Ok d, w1) ->
  (exists name, d = path_join (tempdir w) (lit "tmp" ++ name))
  /\ fs_lookup (fs w) d = None
  /\ fs_put (fs w) d (Dir []) = Some (fs w1)
  /\ provider_calls w1 = provider_calls w
  /\ log w1 = log w
  /\ tempdir w1 = tempdir w.
Proof. apply mkdtemp_loop_inv. Qed.

Lemma mkdtemp_loop_raise (names : list pystr) :
  forall seq w e w1,
    mkdtemp_loop names seq w = (Raise e, w1) ->
    fs w1 = fs w /\ provider_calls w1 = provider_calls w /\ log w1 = log w.
Proof.
  induction names as [|name names IH]; intros seq w e w1 H.
  - injection H as _ <-. auto.
  - cbn [mkdtemp_loop] in H. destruct (TMP_MAX <=? seq); [injection H as _ <-; auto|].
    destruct (fs_lookup (fs w) (path_join (tempdir w) (lit "tmp" ++ name))) as [n|] eqn:E.
    + apply IH in H. exact H.
    + unfold bind, os_mkdir in H. cbn [fs tempdir] in H. rewrite E in H.
      unfold commit, ENOENT, ENOTDIR, raise in H.
      destruct (fs_lookup (fs w) (parent _)) as [[c|es]|];
        try (injection H as _ <-; auto).
      destruct (fs_put (fs w) _ (Dir [])) as [fs1|]; [discriminate|].
      injection H as _ <-; auto.
Qed.

(** ** The status of every response *)

Lemma returns_ret {A} (Q : A -> Prop) (a : A) : Q a -> returns Q (ret a).
Proof. intros H w a' w' [= <- <-]. exact H. Qed.

Lemma returns_bind {A B} (P : A -> Prop) (Q : B -> Prop) (m : M A) (k : A -> M B) :
  returns P m -> (forall a, P a -> returns Q (k a)) -> returns Q (bind m k).
Proof.
  intros Hm Hk w b w' H. apply bind_inv_ok in H as (a & w1 & Ha & Hb).
  exact (Hk a (Hm _ _ _ Ha) _ _ _ Hb).
Qed.

Lemma returns_any {A} (m : M A) : returns (fun _ => True) m.
Proof. intros w a w' _. exact I. Qed.

Lemma returns_send_file (file : path) (name mimetype : pystr) :
  returns is_attachment (send_file file name mimetype).
Proof. intros w r w' H. apply send_file_inv in H as (c & _ & -> & _). exact I. Qed.

Lemma returns_call_after_request {B} (Q : B -> Prop) (r : response)
      (k : (callback -> M callback) -> M B) :
  returns Q (bind (call_after_request r) k).
Proof. intros w a w' H. discriminate H. Qed.

Lemma attachment_status (r : response) : is_attachment r -> status r = 200.
Proof. destruct r; [intros []|reflexivity]. Qed.

Ltac solve_returns :=
  repeat first
    [ apply returns_ret; first [right; reflexivity | left; apply attachment_status; assumption]
    | apply returns_call_after_request
    | eapply returns_bind; [apply returns_send_file|intros ? ?]
    | eapply returns_bind; [apply returns_any|intros ? _]
    | match goal with
      | |- returns _ (match ?x with _ => _ end) => destruct x
      end ].

Section Status.

Variable deezer : provider_call -> node -> outcome unit * node.

Lemma valid_request_dec (id : pystr) (args : query) :
  (str_in (requested_quality args) allowed_qualities = true /\ str_isdigit id = true
   /\ valid_request id args)
  \/ ((str_in (requested_quality args) allowed_qualities = false
       \/ (str_in (requested_quality args) allowed_qualities = true
           /\ str_isdigit id = false))
      /\ ~ valid_request id args).
Proof.
  unfold valid_request.
  destruct (str_in (requested_quality args) allowed_qualities) eqn:Hq.
  - destruct (str_isdigit id) eqn:Hd.
    + left. repeat split. now apply str_in_In.
    + right. split; [right; auto|]. intros [_ H]. discriminate H.
  - right. split; [left; auto|]. intros [H _].
    apply str_in_In in H. congruence.
Qed.

Lemma handle_status (body : M response) (f g : exn -> pystr) (w : world) :
  returns ok_or_server_error body ->
  ok_or_server_error
    (fst (handle body (fun e => logger_error (f e) ;; ret (Json 500 (g e))) w)).
Proof.
  intros Hb. unfold handle, try_except.
  destruct (body w) as [[r|e] w1] eqn:E.
  - exact (Hb _ _ _ E).
  - right. reflexivity.
Qed.

(** X1. Each handler answers 200, 400 or 500, and 400 exactly when the
    request does not pass validation. *)
Theorem status_400_iff_invalid (id : pystr) (args : query) (w : world) :
  let song := fst (download_song deezer id args w) in
  let album := fst (download_album deezer id args w) in
  let playlist := fst (download_playlist deezer id args w) in
  ((status song = 400 <-> ~ valid_request id args)
   /\ (status song = 200 \/ status song = 400 \/ status song = 500))
  /\ ((status album = 400 <-> ~ valid_request id args)
      /\ (status album = 200 \/ status album = 400 \/ status album = 500))
  /\ ((status playlist = 400 <-> ~ valid_request id args)
      /\ (status playlist = 200 \/ status playlist = 400 \/ status playlist = 500)).
Proof.
  cbv zeta.
  destruct (valid_request_dec id args) as [(Hq & Hd & Hv)|([Hq|[Hq Hd]] & Hv)];
    unfold requested_quality in Hq.
  - assert (H : ok_or_server_error (fst (download_song deezer id args w))
                /\ ok_or_server_error (fst (download_album deezer id args w))
                /\ ok_or_server_error (fst (download_playlist deezer id args w))).
    { unfold download_song, download_album, download_playlist.
      repeat split; apply handle_status; rewrite Hq, Hd; cbn [negb]; solve_returns. }
    destruct H as (Hs & Ha & Hp).
    repeat split; try tauto;
      match goal with
      | H : ok_or_server_error ?r |- status ?r = 400 -> _ =>
          intros E; destruct H as [H|H]; rewrite H in E; discriminate E
      | H : ok_or_server_error ?r |- _ =>
          destruct H as [H|H]; rewrite H; auto
      end.
  - unfold download_song, download_album, download_playlist, handle, try_except.
    rewrite Hq. cbn [negb ret fst status]. repeat split; auto.
  - unfold download_song, download_album, download_playlist, handle, try_except.
    rewrite Hq, Hd. cbn [negb ret fst status]. repeat split; auto.
Qed.

End Status.

(** ** The call of the provider *)

Ltac solve_blind :=
  repeat first
    [ apply preserves_ret
    | apply preserves_raise
    | apply blind_logger_info; solve [auto]
    | apply blind_logger_error; solve [auto]
    | apply blind_find_audio_files
    | apply blind_os_rename; solve [auto]
    | apply blind_zipfile_open; solve [auto]
    | apply blind_zipf_write; solve [auto]
    | apply blind_send_file
    | apply blind_call_after_request
    | apply preserves_for_each; intros ?
    | apply preserves_bind; [|intros ?]
    | match goal with
      | |- preserves _ (match ?x with _ => _ end) => destruct x
      | |- preserves _ (if ?b then _ else _) => destruct b
      end ].

Section ProviderCall.

Variable deezer : provider_call -> node -> outcome unit * node.

(** After the provider is called, what is left of a handler makes no
    further call. *)
Lemma after_provider (I : world -> Prop) (call : provider_call) (rest : M response)
      (f g : exn -> pystr) (w w1 : world) (temp_dir : path) (msg : pystr)
      (k : path -> M response) :
  (forall w0 lvl msg, I w0 -> I (with_record w0 lvl msg)) ->
  mkdtemp w = (Ok temp_dir, w1) ->
  k temp_dir = (logger_info msg ;; provider deezer call ;; rest) ->
  preserves I rest ->
  (forall r fs', deezer call (fs w1) = (r, fs') ->
                I (with_call (with_record w1 INFO msg) call fs')) ->
  I (snd (handle (temp_dir <- mkdtemp ;; k temp_dir)
                 (fun e => logger_error (f e) ;; ret (Json 500 (g e))) w)).
Proof.
  intros Hrec Hmk Hk Hrest Hcall. unfold handle, try_except.
  rewrite (bind_ok _ _ _ _ _ Hmk), Hk.
  unfold bind at 1, logger_info at 1. unfold bind at 1, provider at 1.
  destruct (deezer call (fs (with_record w1 INFO msg))) as [[[]|e] fs2] eqn:D;
    cbn [fs with_record] in D.
  - destruct (rest _) as [[r|e] w3] eqn:E; cbn [snd bind logger_error ret].
    + exact (Hrest _ _ _ E (Hcall _ fs2 D)).
    + apply Hrec. exact (Hrest _ _ _ E (Hcall _ fs2 D)).
  - cbn [snd bind logger_error ret]. apply Hrec. exact (Hcall _ fs2 D).
Qed.

(** X2. A request that passes validation and gets its work directory calls
    the provider once, whatever happens next: with the link of the
    resource, the work directory, the requested quality as it came, no
    quality fallback for a track and quality fallback for an album or a
    playlist. *)
Theorem provider_called_once
        (id : pystr) (args : query) (w w1 : world) (temp_dir : path) :
  valid_request id args ->
  mkdtemp w = (Ok temp_dir, w1) ->
  provider_calls (snd (download_song deezer id args w))
  = provider_calls w ++ [track_call id (requested_quality args) temp_dir]
  /\ provider_calls (snd (download_album deezer id args w))
     = provider_calls w ++ [album_call id (requested_quality args) temp_dir]
  /\ provider_calls (snd (download_playlist deezer id args w))
     = provider_calls w ++ [playlist_call id (requested_quality args) temp_dir].
Proof.
  intros [Hq Hd] Hmk. apply str_in_In in Hq. unfold requested_quality in *.
  destruct (mkdtemp_inv _ _ _ Hmk) as (_ & _ & _ & Hcalls & _ & _).
  unfold download_song, download_album, download_playlist.
  rewrite Hq, Hd. cbn [negb].
  repeat split;
    match goal with
    | |- provider_calls _ = ?c =>
        eapply (after_provider (calls_are c));
        [ intros ? ? ? H; exact H
        | exact Hmk
        | reflexivity
        | unfold calls_are; solve_blind
        | intros ? fs' _; unfold calls_are; cbn [provider_calls with_call with_record];
          rewrite Hcalls; reflexivity ]
    end.
Qed.

End ProviderCall.

(** ** The default quality *)

Section DefaultQuality.

Variable deezer : provider_call -> node -> outcome unit * node.

(** A request that passes validation is answered 200 or 500. *)
Lemma valid_request_status (id : pystr) (args : query) (w : world) :
  valid_request id args ->
  ok_or_server_error (fst (download_song deezer id args w))
  /\ ok_or_server_error (fst (download_album deezer id args w))
  /\ ok_or_server_error (fst (download_playlist deezer id args w)).
Proof.
  intros [Hq Hd]. apply str_in_In in Hq. unfold requested_quality in Hq.
  unfold download_song, download_album, download_playlist.
  repeat split; apply handle_status; rewrite Hq, Hd; cbn [negb]; solve_returns.
Qed.

Lemma not_400 (r : response) (msg : pystr) :
  ok_or_server_error r -> r <> Json 400 msg /\ status r <> 400.
Proof.
  intros [H|H]; split; try (intros ->; discriminate H); rewrite H; discriminate.
Qed.

(** C2. When the query has no [quality] parameter, each handler works
    with [MP3_320], the standard tier, and does what it does when
    [quality=MP3_320] is passed: same response, same effects. It does
    not answer with the invalid-quality rejection; when the id is made
    of digits it does not answer 400 at all, and once the work
    directory is made it calls the provider with the quality
    [MP3_320]. *)
Theorem absent_quality_defaults_to_standard (id : pystr) (args : query) (w : world) :
  (forall v, ~ In (lit "quality", v) args) ->
  let args' := (lit "quality", lit "MP3_320") :: args in
  requested_quality args = lit "MP3_320"
  /\ In (requested_quality args) allowed_qualities
  /\ download_song deezer id args w = download_song deezer id args' w
  /\ download_album deezer id args w = download_album deezer id args' w
  /\ download_playlist deezer id args w = download_playlist deezer id args' w
  /\ (fst (download_song deezer id args w) <> Json 400 msg_invalid_quality
      /\ fst (download_album deezer id args w) <> Json 400 msg_invalid_quality
      /\ fst (download_playlist deezer id args w) <> Json 400 msg_invalid_quality)
  /\ (str_isdigit id = true ->
      (status (fst (download_song deezer id args w)) <> 400
       /\ status (fst (download_album deezer id args w)) <> 400
       /\ status (fst (download_playlist deezer id args w)) <> 400)
      /\ forall temp_dir w1,
           mkdtemp w = (Ok temp_dir, w1) ->
           provider_calls (snd (download_song deezer id args w))
           = provider_calls w ++ [track_call id (lit "MP3_320") temp_dir]
           /\ provider_calls (snd (download_album deezer id args w))
              = provider_calls w ++ [album_call id (lit "MP3_320") temp_dir]
           /\ provider_calls (snd (download_playlist deezer id args w))
              = provider_calls w ++ [playlist_call id (lit "MP3_320") temp_dir]).
Proof.
  intros Habs args'.
  assert (E : requested_quality args = lit "MP3_320")
    by (apply args_get_absent; exact Habs).
  assert (E' : args_get args' (lit "quality") (lit "MP3_320") = lit "MP3_320")
    by apply args_get_first.
  assert (Hq : In (requested_quality args) allowed_qualities)
    by (rewrite E; right; now left).
  split; [exact E|]. split; [exact Hq|].
  assert (Hsame : download_song deezer id args w = download_song deezer id args' w
                  /\ download_album deezer id args w = download_album deezer id args' w
                  /\ download_playlist deezer id args w
                     = download_playlist deezer id args' w).
  { unfold requested_quality in E.
    unfold download_song, download_album, download_playlist, handle, try_except.
    cbv zeta. rewrite E, E'. repeat split. }
  destruct Hsame as (Hs & Ha & Hp).
  split; [exact Hs|]. split; [exact Ha|]. split; [exact Hp|].
  assert (Hvalid : str_isdigit id = true ->
                   (fst (download_song deezer id args w) <> Json 400 msg_invalid_quality
                    /\ status (fst (download_song deezer id args w)) <> 400)
                   /\ (fst (download_album deezer id args w) <> Json 400 msg_invalid_quality
                       /\ status (fst (download_album deezer id args w)) <> 400)
                   /\ (fst (download_playlist deezer id args w)
                       <> Json 400 msg_invalid_quality
                       /\ status (fst (download_playlist deezer id args w)) <> 400)).
  { intros Hd.
    destruct (valid_request_status id args w (conj Hq Hd)) as (Ss & Sa & Sp).
    repeat split; now apply not_400. }
  split.
  - destruct (str_isdigit id) eqn:Hd.
    + destruct (Hvalid eq_refl) as ((H1 & _) & (H2 & _) & (H3 & _)). auto.
    + destruct msg_invalid_quality_distinct as (D1 & D2 & D3).
      apply str_in_In in Hq. unfold requested_quality in Hq.
      unfold download_song, download_album, download_playlist, handle, try_except.
      cbv zeta. rewrite Hq, Hd. cbn [negb ret fst].
      repeat split; congruence.
  - intros Hd.
    destruct (Hvalid Hd) as ((_ & H1) & (_ & H2) & (_ & H3)).
    split; [auto|].
    intros temp_dir w1 Hmk.
    destruct (mkdtemp_inv _ _ _ Hmk) as (_ & _ & _ & Hcalls & _ & _).
    rewrite <- E.
    apply str_in_In in Hq. unfold requested_quality in *.
    unfold download_song, download_album, download_playlist.
    rewrite Hq, Hd. cbn [negb].
    repeat split;
      match goal with
      | |- provider_calls _ = ?c =>
          eapply (after_provider deezer (calls_are c));
          [ intros ? ? ? H; exact H
          | exact Hmk
          | reflexivity
          | unfold calls_are; solve_blind
          | intros ? fs' _; unfold calls_are; cbn [provider_calls with_call with_record];
            rewrite Hcalls; reflexivity ]
      end.
Qed.

End DefaultQuality.

(** ** Failures before any artifact is sent *)

Section Failures.

Variable deezer : provider_call -> node -> outcome unit * node.

Ltac enter_valid Hq Hd :=
  unfold download_song, download_album, download_playlist, handle, try_except;
  rewrite Hq, Hd; cbn [negb].

(** X3. When the work directory cannot be made, the answer is 500 with the
    text of that error; the provider is not called and the filesystem is
    as it was. *)
Theorem mkdtemp_failure_is_500
        (id : pystr) (args : query) (w w1 : world) (e : exn) :
  valid_request id args ->
  mkdtemp w = (Raise e, w1) ->
  (fst (download_song deezer id args w)
   = Json 500 (lit "Error al descargar la canci" ++ [o_acute] ++ lit "n: " ++ e)
   /\ fs (snd (download_song deezer id args w)) = fs w
   /\ provider_calls (snd (download_song deezer id args w)) = provider_calls w)
  /\ (fst (download_album deezer id args w)
      = Json 500 (lit "Error al descargar el " ++ [a_acute] ++ lit "lbum: " ++ e)
      /\ fs (snd (download_album deezer id args w)) = fs w
      /\ provider_calls (snd (download_album deezer id args w)) = provider_calls w)
  /\ (fst (download_playlist deezer id args w)
      = Json 500 (lit "Error al descargar la playlist: " ++ e)
      /\ fs (snd (download_playlist deezer id args w)) = fs w
      /\ provider_calls (snd (download_playlist deezer id args w))
         = provider_calls w).
Proof.
  intros [Hq Hd] Hmk. apply str_in_In in Hq. unfold requested_quality in Hq.
  destruct (mkdtemp_loop_raise _ _ _ _ _ Hmk) as (Hfs & Hcalls & _).
  enter_valid Hq Hd. rewrite !(bind_raise _ _ _ _ _ Hmk).
  cbn [fst snd bind logger_error ret fs provider_calls with_record].
  repeat split; assumption.
Qed.

(** X4. When the provider raises, the answer is 500 with the text of its
    exception, and nothing is cleaned up: the filesystem is left as the
    provider left it, work directory included. *)
Theorem provider_failure_is_500_and_nothing_is_removed
        (id : pystr) (args : query) (w w1 : world) (temp_dir : path)
        (e : exn) (fs2 : node) :
  valid_request id args ->
  mkdtemp w = (Ok temp_dir, w1) ->
  (deezer (track_call id (requested_quality args) temp_dir) (fs w1) = (Raise e, fs2) ->
   fst (download_song deezer id args w)
   = Json 500 (lit "Error al descargar la canci" ++ [o_acute] ++ lit "n: " ++ e)
   /\ fs (snd (download_song deezer id args w)) = fs2)
  /\ (deezer (album_call id (requested_quality args) temp_dir) (fs w1) = (Raise e, fs2) ->
      fst (download_album deezer id args w)
      = Json 500 (lit "Error al descargar el " ++ [a_acute] ++ lit "lbum: " ++ e)
      /\ fs (snd (download_album deezer id args w)) = fs2)
  /\ (deezer (playlist_call id (requested_quality args) temp_dir) (fs w1)
      = (Raise e, fs2) ->
      fst (download_playlist deezer id args w)
      = Json 500 (lit "Error al descargar la playlist: " ++ e)
      /\ fs (snd (download_playlist deezer id args w)) = fs2).
Proof.
  intros [Hq Hd] Hmk. apply str_in_In in Hq. unfold requested_quality in *.
  (split; [|split]); intros Hcall; split; enter_valid Hq Hd;
    rewrite (bind_ok _ _ _ _ _ Hmk);
    unfold bind at 1; unfold logger_info at 1;
    (erewrite bind_raise by (apply provider_run; exact Hcall));
    reflexivity.
Qed.

(** X5. When no artifact is found, nothing is cleaned up either: the
    filesystem is left as the provider left it, and one record is added
    to the log, the [INFO] record that announces the download, with the
    link of the resource and the requested quality. *)
Theorem no_artifacts_and_nothing_is_removed
        (id : pystr) (args : query) (w w1 : world) (temp_dir : path) (fs2 : node) :
  valid_request id args ->
  mkdtemp w = (Ok temp_dir, w1) ->
  discovered fs2 temp_dir = [] ->
  (deezer (track_call id (requested_quality args) temp_dir) (fs w1) = (Ok tt, fs2) ->
   fs (snd (download_song deezer id args w)) = fs2
   /\ log (snd (download_song deezer id args w))
      = log w ++ [(INFO, lit "Iniciando descarga de canci" ++ [o_acute] ++ lit "n: "
                           ++ (lit "https://www.deezer.com/track/" ++ id)
                           ++ lit ", calidad: " ++ requested_quality args)])
  /\ (deezer (album_call id (requested_quality args) temp_dir) (fs w1) = (Ok tt, fs2) ->
      fs (snd (download_album deezer id args w)) = fs2
      /\ log (snd (download_album deezer id args w))
         = log w ++ [(INFO, lit "Iniciando descarga de " ++ [a_acute] ++ lit "lbum: "
                              ++ (lit "https://www.deezer.com/album/" ++ id)
                              ++ lit ", calidad: " ++ requested_quality args)])
  /\ (deezer (playlist_call id (requested_quality args) temp_dir) (fs w1) = (Ok tt, fs2) ->
      fs (snd (download_playlist deezer id args w)) = fs2
      /\ log (snd (download_playlist deezer id args w))
         = log w ++ [(INFO, lit "Iniciando descarga de playlist: "
                              ++ (lit "https://www.deezer.com/playlist/" ++ id)
                              ++ lit ", calidad: " ++ requested_quality args)]).
Proof.
  intros [Hq Hd] Hmk Hnone. apply str_in_In in Hq. unfold requested_quality in *.
  destruct (mkdtemp_inv _ _ _ Hmk) as (_ & _ & _ & _ & Hlog & _).
  (split; [|split]); intros Hcall; split; enter_valid Hq Hd;
    rewrite (bind_ok _ _ _ _ _ Hmk);
    unfold bind at 1; unfold logger_info at 1;
    (erewrite bind_ok by (apply provider_run; exact Hcall));
    unfold bind at 1, find_audio_files at 1; cbn [fs with_call];
    rewrite Hnone; cbn [ret fst snd fs log with_call with_record];
    rewrite ?Hlog; reflexivity.
Qed.

End Failures.

(** ** Past the discovery: what the handlers do with the artifacts *)

(** *** Failures of the operating system *)

Lemma os_error_not_attribute_error (errno : N) (strerror : pystr) (p : path) :
  os_error errno strerror p <> attribute_error.
Proof.
  intros H. apply (f_equal (hd 0)) in H. vm_compute in H. discriminate H.
Qed.

Ltac os_failure_cases H :=
  repeat match type of H with
         | context [match ?x with _ => _ end] => destruct x
         end;
  first [ discriminate H
        | injection H as <- <-; split;
          [reflexivity|apply os_error_not_attribute_error] ].

Lemma os_failure_os_rename (src dst : path) : os_failure (os_rename src dst).
Proof.
  intros w e w' H.
  unfold os_rename, commit, ENOENT, ENOTDIR, EISDIR, ENOTEMPTY, raise in H.
  os_failure_cases H.
Qed.

Lemma os_failure_zipfile_open (zip_path : path) : os_failure (zipfile_open zip_path).
Proof.
  intros w e w' H. unfold zipfile_open, commit, ENOENT, EISDIR, raise in H.
  os_failure_cases H.
Qed.

Lemma os_failure_zipf_write (zip_path file_path arcname : path) :
  os_failure (zipf_write zip_path file_path arcname).
Proof.
  intros w e w' H. unfold zipf_write, commit, ENOENT, raise in H.
  os_failure_cases H.
Qed.

Lemma os_failure_send_file (file : path) (name mimetype : pystr) :
  os_failure (send_file file name mimetype).
Proof.
  intros w e w' H. unfold send_file, ENOENT, EISDIR, raise in H.
  os_failure_cases H.
Qed.

Lemma for_each_zipf_write_raise (zip_path temp_dir : path) (files : list path) :
  forall w e w',
    for_each files
      (fun file_path => zipf_write zip_path file_path (relpath file_path temp_dir)) w
    = (Raise e, w') ->
    e <> attribute_error.
Proof.
  induction files as [|f files IH]; intros w e w' H; [discriminate H|].
  cbn [for_each] in H. apply bind_inv_raise in H as [H|([] & w1 & _ & H)].
  - exact (proj2 (os_failure_zipf_write _ _ _ _ _ _ H)).
  - exact (IH _ _ _ H).
Qed.

(** *** What the filesystem calls change *)

Lemma os_rename_inv (src dst : path) (w w' : world) :
  os_rename src dst w = (Ok tt, w') ->
  exists n fs1,
    fs_lookup (fs w) src = Some n
    /\ fs_del (fs w) src = Some fs1
    /\ fs_put fs1 dst n = Some (fs w')
    /\ w' = with_fs w (fs w').
Proof.
  unfold os_rename. intros H.
  destruct (fs_lookup (fs w) src) as [[c|es]|]; [| |discriminate].
  - destruct (fs_lookup (fs w) dst) as [[c'|es']|]; try discriminate;
      (destruct (fs_del (fs w) src) as [fs1|]; [|discriminate]);
      apply commit_inv in H as (fs' & Hput & ->);
      exists (File c), fs1; auto.
  - destruct (fs_lookup (fs w) dst) as [[c'|[|e' es']]|]; try discriminate;
      (destruct (fs_del (fs w) src) as [fs1|]; [|discriminate]);
      apply commit_inv in H as (fs' & Hput & ->);
      exists (Dir es), fs1; auto.
Qed.


Lemma fs_del_is_dir (n n' : node) (p : path) :
  fs_del n p = Some n' -> exists es, n' = Dir es.
Proof.
  destruct p as [|x p]; [discriminate|]. cbn [fs_del].
  destruct n as [c|es]; [discriminate|].
  destruct p as [|y q]; destruct (entry_get x es) as [child|]; try discriminate.
  - intros [= <-]. eexists. reflexivity.
  - destruct (fs_del child (y :: q)); [|discriminate].
    intros [= <-]. eexists. reflexivity.
Qed.

Lemma fs_put_keeps_dir (n n' : node) (d p : path) (es : list (pystr * node))
      (new : node) :
  fs_lookup n d = Some (Dir es) -> p <> [] -> fs_put n (d ++ p) new = Some n' ->
  exists es', fs_lookup n' d = Some (Dir es').
Proof.
  intros Hd Hp H. rewrite (fs_put_app _ _ _ _ _ Hd) in H.
  destruct (fs_put (Dir es) p new) as [m'|] eqn:P; [|discriminate].
  assert (Hm : exists es', m' = Dir es').
  { destruct p as [|x p]; [contradiction|]. cbn [fs_put] in P.
    destruct p as [|y p]; [injection P as <-; eauto|].
    destruct (entry_get x es) as [child|]; [|discriminate].
    destruct (fs_put child (y :: p) new); [|discriminate].
    injection P as <-. eauto. }
  destruct Hm as [es' ->]. exists es'. eapply fs_lookup_put_same. exact H.
Qed.

Lemma fs_del_keeps_dir (n n' : node) (d p : path) (es : list (pystr * node)) :
  fs_lookup n d = Some (Dir es) -> p <> [] -> fs_del n (d ++ p) = Some n' ->
  exists es', fs_lookup n' d = Some (Dir es').
Proof.
  intros Hd Hp H. rewrite (fs_del_app _ _ _ _ Hd Hp) in H.
  destruct (fs_del (Dir es) p) as [m'|] eqn:P; [|discriminate].
  destruct (fs_del_is_dir _ _ _ P) as [es' ->].
  exists es'. eapply fs_lookup_put_same. exact H.
Qed.

(** Whether it returns or raises, [zipfile.ZipFile(zip_path, 'w')]
    changes nothing or puts a node at [zip_path]; so does
    [zipf.write]. *)
Lemma zipfile_open_effect (zip_path : path) (w w' : world) (r : outcome unit) :
  zipfile_open zip_path w = (r, w') ->
  w' = w
  \/ exists new fs', fs_put (fs w) zip_path new = Some fs' /\ w' = with_fs w fs'.
Proof.
  unfold zipfile_open, commit, EISDIR, ENOENT, raise. intros H.
  destruct (fs_put (fs w) zip_path (File (ZipArchive []))) as [fs'|] eqn:P;
    destruct (fs_lookup (fs w) zip_path) as [[c|es]|];
    injection H as <- <-; first [left; reflexivity | right; eauto].
Qed.

Lemma zipf_write_effect (zip_path file_path arcname : path) (w w' : world)
      (r : outcome unit) :
  zipf_write zip_path file_path arcname w = (r, w') ->
  w' = w
  \/ exists new fs', fs_put (fs w) zip_path new = Some fs' /\ w' = with_fs w fs'.
Proof.
  unfold zipf_write, commit, ENOENT, raise. intros H.
  destruct (fs_lookup (fs w) file_path) as [n|]; [|injection H as <- <-; now left].
  destruct (fs_lookup (fs w) zip_path) as [[[data|members]|es]|];
    try (injection H as <- <-; now left).
  destruct (fs_put _ _ _) as [fs'|] eqn:P; injection H as <- <-;
    [right; eauto|now left].
Qed.

(** [os.rename] changes nothing, or deletes at [src] and puts at [dst]. *)
Lemma os_rename_effect (src dst : path) (w w' : world) (r : outcome unit) :
  os_rename src dst w = (r, w') ->
  w' = w
  \/ exists n fs1 fs',
       fs_del (fs w) src = Some fs1 /\ fs_put fs1 dst n = Some fs'
       /\ w' = with_fs w fs'.
Proof.
  intros H. destruct r as [[]|e].
  - right. apply os_rename_inv in H as (n & fs1 & _ & Hdel & Hput & Hw).
    exists n, fs1, (fs w'). auto.
  - left. exact (proj1 (os_failure_os_rename _ _ _ _ _ H)).
Qed.

Lemma preserves_send_file (I : world -> Prop) (file : path) (name mimetype : pystr) :
  preserves I (send_file file name mimetype).
Proof.
  intros w r w' H HI. unfold send_file, ENOENT, EISDIR, raise in H.
  destruct (fs_lookup (fs w) file) as [[c|es]|]; injection H as <- <-; exact HI.
Qed.

Lemma preserves_call_after_request {B} (I : world -> Prop) (r : response)
      (k : (callback -> M callback) -> M B) :
  preserves I (bind (call_after_request r) k).
Proof. intros w r' w' [= <- <-] H. exact H. Qed.

Lemma preserves_logger_info (I : world -> Prop) (msg : pystr) :
  (forall w lvl msg, I w -> I (with_record w lvl msg)) ->
  preserves I (logger_info msg).
Proof. intros Hrec w r w' [= <- <-] H. now apply Hrec. Qed.

(** *** The work directory stays a directory *)

Lemma is_dir_at_record (d : path) (w : world) (lvl : level) (msg : pystr) :
  is_dir_at d w -> is_dir_at d (with_record w lvl msg).
Proof. intros H. exact H. Qed.

Lemma dir_put_below (d p : path) (new : node) (w : world) (fs' : node) :
  p <> [] -> fs_put (fs w) (d ++ p) new = Some fs' ->
  is_dir_at d w -> is_dir_at d (with_fs w fs').
Proof.
  intros Hp P [es Hd]. unfold is_dir_at. cbn [fs with_fs].
  eapply fs_put_keeps_dir; eassumption.
Qed.

Lemma dir_zipfile_open (d : path) (z : pystr) :
  preserves (is_dir_at d) (zipfile_open (path_join d z)).
Proof.
  intros w r w' H Hd.
  apply zipfile_open_effect in H as [->|(new & fs' & P & ->)]; [exact Hd|].
  eapply dir_put_below; [|exact P|exact Hd]. discriminate.
Qed.

Lemma dir_zipf_write (d : path) (z : pystr) (file_path arcname : path) :
  preserves (is_dir_at d) (zipf_write (path_join d z) file_path arcname).
Proof.
  intros w r w' H Hd.
  apply zipf_write_effect in H as [->|(new & fs' & P & ->)]; [exact Hd|].
  eapply dir_put_below; [|exact P|exact Hd]. discriminate.
Qed.

Lemma dir_os_rename (d rel : path) (x : pystr) :
  rel <> [] -> preserves (is_dir_at d) (os_rename (d ++ rel) (path_join d x)).
Proof.
  intros Hrel w r w' H [es Hd].
  apply os_rename_effect in H as [->|(n & fs1 & fs' & Hdel & Hput & ->)];
    [now exists es|].
  destruct (fs_del_keeps_dir _ _ _ _ _ Hd Hrel Hdel) as [es1 Hd1].
  unfold is_dir_at. cbn [fs with_fs].
  eapply fs_put_keeps_dir; [exact Hd1| |exact Hput]. discriminate.
Qed.

(** *** Outside of the archive nothing changes *)

Lemma outside_put (p : path) (fs2 : node) (w : world) (new fs' : node) :
  fs_put (fs w) p new = Some fs' ->
  same_outside p fs2 w -> same_outside p fs2 (with_fs w fs').
Proof.
  intros P H q Hq. cbn [fs with_fs]. rewrite <- (H q Hq).
  destruct Hq as [Hq1 Hq2]. eapply fs_lookup_put_other; eassumption.
Qed.

Lemma outside_zipfile_open (zip_path : path) (fs2 : node) :
  preserves (same_outside zip_path fs2) (zipfile_open zip_path).
Proof.
  intros w r w' H Hs.
  apply zipfile_open_effect in H as [->|(new & fs' & P & ->)]; [exact Hs|].
  eapply outside_put; eassumption.
Qed.

Lemma outside_zipf_write (zip_path file_path arcname : path) (fs2 : node) :
  preserves (same_outside zip_path fs2) (zipf_write zip_path file_path arcname).
Proof.
  intros w r w' H Hs.
  apply zipf_write_effect in H as [->|(new & fs' & P & ->)]; [exact Hs|].
  eapply outside_put; eassumption.
Qed.

(** *** The steps, and the handlers in their terms *)

Lemma archive_steps_preserves (I : world -> Prop) (temp_dir : path) (z : pystr)
      (files : list path) (msg : pystr) :
  preserves I (zipfile_open (path_join temp_dir z)) ->
  (forall f arcname, preserves I (zipf_write (path_join temp_dir z) f arcname)) ->
  (forall w lvl msg, I w -> I (with_record w lvl msg)) ->
  preserves I (archive_steps temp_dir z files msg).
Proof.
  intros Hopen Hwrite Hrec. unfold archive_steps.
  apply preserves_bind; [exact Hopen|intros _].
  apply preserves_bind; [apply preserves_for_each; intros f; apply Hwrite|intros _].
  apply preserves_bind; [now apply preserves_logger_info|intros _].
  apply preserves_bind; [apply preserves_send_file|intros r].
  apply preserves_call_after_request.
Qed.

Lemma song_steps_preserves (I : world -> Prop) (temp_dir : path) (quality : pystr)
      (first : path) :
  preserves I (os_rename first (path_join temp_dir (sent_name quality first))) ->
  (forall w lvl msg, I w -> I (with_record w lvl msg)) ->
  preserves I (song_steps temp_dir quality first).
Proof.
  intros Hren Hrec. unfold song_steps. cbv zeta.
  apply preserves_bind.
  - destruct (negb (path_eqb first _)); [|apply preserves_ret].
    apply preserves_bind; [exact Hren|intros _; apply preserves_ret].
  - intros audio_file.
    apply preserves_bind; [now apply preserves_logger_info|intros _].
    apply preserves_bind; [apply preserves_send_file|intros r].
    apply preserves_call_after_request.
Qed.

Lemma finish_preserves (I : world -> Prop) (m : M response) (record body : exn -> pystr)
      (w : world) :
  preserves I m ->
  (forall w lvl msg, I w -> I (with_record w lvl msg)) ->
  I w -> I (snd (finish m record body w)).
Proof.
  intros Hm Hrec HI. unfold finish.
  destruct (m w) as [[r|e] w'] eqn:E; cbn [snd].
  - exact (Hm _ _ _ E HI).
  - apply Hrec. exact (Hm _ _ _ E HI).
Qed.

(** The steps never return: [call_after_request] raises at the latest. *)
Lemma archive_steps_raises (temp_dir : path) (z : pystr) (files : list path)
      (msg : pystr) (w w' : world) (r : response) :
  archive_steps temp_dir z files msg w <> (Ok r, w').
Proof.
  unfold archive_steps. intros H.
  apply bind_inv_ok in H as ([] & wa & _ & H).
  apply bind_inv_ok in H as ([] & wb & _ & H).
  apply bind_inv_ok in H as ([] & wc & _ & H).
  apply bind_inv_ok in H as (r1 & wd & _ & H).
  discriminate H.
Qed.


(** The body of a cleanup closure catches what [os.remove], [os.rmdir]
    and [shutil.rmtree] raise, and returns the response it is given. No
    run of a handler gets to define the closure: the decorator
    expression above it raises first. *)
Lemma run_callback_returns (cb : callback) (r : response) (w : world) :
  exists w', run_callback cb r w = (Ok r, w').
Proof.
  destruct cb as [audio_file temp_dir|zip_path temp_dir];
    unfold run_callback, bind, try_except.
  - destruct (os_remove audio_file w) as [[[]|e] w1].
    + destruct (os_rmdir temp_dir w1) as [[[]|e] w2]; eexists; reflexivity.
    + eexists; reflexivity.
  - destruct (os_remove zip_path w) as [[[]|e] w1].
    + destruct (shutil_rmtree temp_dir w1) as [[[]|e] w2]; eexists; reflexivity.
    + eexists; reflexivity.
Qed.

(** When the steps of a collection end in the [AttributeError], every
    step before [call_after_request] went through: the archive is
    written, with one member for each discovered artifact. *)
Lemma archive_steps_attribute_error (temp_dir : path) (z msg : pystr) (w2 w' : world) :
  archive_steps temp_dir z (discovered (fs w2) temp_dir) msg w2
  = (Raise attribute_error, w') ->
  unique_names (fs w2) = true ->
  endswith_any z audio_suffixes = false ->
  exists rels members,
    discovered (fs w2) temp_dir = map (app temp_dir) rels
    /\ map fst members = rels
    /\ Forall2 (fun rel m => fs_lookup (fs w2) (temp_dir ++ rel) = Some (File (snd m)))
               rels members
    /\ fs_lookup (fs w') (path_join temp_dir z) = Some (File (ZipArchive members))
    /\ log w' = log w2 ++ [(INFO, msg)].
Proof.
  intros H Hu Hz. unfold archive_steps in H.
  destruct (discovered_artifacts (fs w2) temp_dir Hu) as (rels & Hrels & Hart).
  apply bind_inv_raise in H as [H|([] & wa & Hopen & H)];
    [exfalso; exact (proj2 (os_failure_zipfile_open _ _ _ _ H) eq_refl)|].
  apply zipfile_open_inv in Hopen as (Hnd & Hza & Hsame_a & Hwa).
  assert (Hapart : forall rel, artifact (fs w2) temp_dir rel ->
                               apart (path_join temp_dir z) (temp_dir ++ rel)).
  { intros rel Hrel. eapply artifact_apart_zip; eassumption. }
  apply bind_inv_raise in H as [H|([] & wb & Hloop & H)];
    [exfalso; exact (for_each_zipf_write_raise _ _ _ _ _ _ H eq_refl)|].
  apply for_each_zipf_write_inv with (members := []) in Hloop
    as (added & Hzb & Hall & Hsame_b & Hwb); [|exact Hza|].
  2:{ intros f Hf. rewrite Hrels in Hf. apply in_map_iff in Hf as (rel & <- & Hrel).
      apply Hapart. rewrite Forall_forall in Hart. now apply Hart. }
  apply bind_inv_raise in H as [H|([] & wc & Hlog & H)]; [discriminate H|].
  injection Hlog as <-.
  apply bind_inv_raise in H as [H|(r1 & wd & Hsend & H)];
    [exfalso; exact (proj2 (os_failure_send_file _ _ _ _ _ _ H) eq_refl)|].
  apply send_file_inv in Hsend as (c' & Hc' & -> & ->).
  injection H as <-. cbn [fs log with_record] in *.
  assert (Hlog : log wb = log w2).
  { rewrite Hwb. cbn [log with_fs]. rewrite Hwa. reflexivity. }
  rewrite Hrels in Hall.
  destruct (members_of_artifacts (fs w2) (fs wa) temp_dir rels added Hart) as [Hn Hc].
  { intros rel Hrel. apply Hsame_a. now apply Hapart. }
  { exact Hall. }
  exists rels, added. cbn [app] in Hzb. rewrite Hlog. repeat split; assumption.
Qed.


(** A handler answers with what its body returns, or with the 500 of
    its [except] clause; the clause itself does not raise. *)
Lemma handle_finish (body : M response) (record msg : exn -> pystr) (w : world) :
  handle body (fun e => logger_error (record e) ;; ret (Json 500 (msg e))) w
  = finish body record msg w.
Proof.
  unfold handle, try_except, finish. destruct (body w) as [[r|e] w']; reflexivity.
Qed.

Section Runs.

Variable deezer : provider_call -> node -> outcome unit * node.

Ltac enter_run Hq Hd Hmk Hcall w :=
  unfold download_song, download_album, download_playlist;
  rewrite Hq, Hd; cbn [negb];
  first [ refine (eq_trans (handle_finish _ song_error_record song_error w) _)
        | refine (eq_trans (handle_finish _ album_error_record album_error w) _)
        | refine (eq_trans (handle_finish _ playlist_error_record playlist_error w) _) ];
  unfold finish at 1;
  rewrite (bind_ok _ _ _ _ _ Hmk);
  unfold bind at 1; unfold logger_info at 1;
  unfold bind at 1; unfold provider at 1; cbn [fs with_record];
  unfold track_call, album_call, playlist_call in Hcall; rewrite Hcall.

(** A track request that passes validation and has its work directory,
    in terms of what the provider does and of the steps after it. *)
Lemma download_song_run (id : pystr) (args : query) (w w1 : world) (temp_dir : path)
      (r : outcome unit) (fs2 : node) :
  valid_request id args ->
  mkdtemp w = (Ok temp_dir, w1) ->
  deezer (track_call id (requested_quality args) temp_dir) (fs w1) = (r, fs2) ->
  download_song deezer id args w
  = let w2 := with_call (with_record w1 INFO (song_start id (requested_quality args)))
                        (track_call id (requested_quality args) temp_dir) fs2 in
    match r with
    | Raise e => (Json 500 (song_error e), with_record w2 ERROR (song_error_record e))
    | Ok _ =>
        match discovered fs2 temp_dir with
        | [] => (Json 500 msg_no_song_file, w2)
        | first :: _ =>
            finish (song_steps temp_dir (requested_quality args) first)
                   song_error_record song_error w2
        end
    end.
Proof.
  intros [Hq Hd] Hmk Hcall. apply str_in_In in Hq. unfold requested_quality in *.
  enter_run Hq Hd Hmk Hcall w.
  destruct r as [[]|e]; [|reflexivity].
  cbv zeta. unfold bind at 1, find_audio_files at 1. cbn [fs with_call].
  destruct (discovered fs2 temp_dir) as [|first others]; reflexivity.
Qed.

Lemma download_album_run (id : pystr) (args : query) (w w1 : world) (temp_dir : path)
      (r : outcome unit) (fs2 : node) :
  valid_request id args ->
  mkdtemp w = (Ok temp_dir, w1) ->
  deezer (album_call id (requested_quality args) temp_dir) (fs w1) = (r, fs2) ->
  download_album deezer id args w
  = let w2 := with_call (with_record w1 INFO (album_start id (requested_quality args)))
                        (album_call id (requested_quality args) temp_dir) fs2 in
    match r with
    | Raise e => (Json 500 (album_error e), with_record w2 ERROR (album_error_record e))
    | Ok _ =>
        match discovered fs2 temp_dir with
        | [] => (Json 500 msg_no_files, w2)
        | _ :: _ =>
            finish (archive_steps temp_dir (album_zip id) (discovered fs2 temp_dir)
                      (album_packed (length (discovered fs2 temp_dir))))
                   album_error_record album_error w2
        end
    end.
Proof.
  intros [Hq Hd] Hmk Hcall. apply str_in_In in Hq. unfold requested_quality in *.
  enter_run Hq Hd Hmk Hcall w.
  destruct r as [[]|e]; [|reflexivity].
  cbv zeta. unfold bind at 1, find_audio_files at 1. cbn [fs with_call].
  destruct (discovered fs2 temp_dir) as [|first others]; reflexivity.
Qed.

Lemma download_playlist_run (id : pystr) (args : query) (w w1 : world) (temp_dir : path)
      (r : outcome unit) (fs2 : node) :
  valid_request id args ->
  mkdtemp w = (Ok temp_dir, w1) ->
  deezer (playlist_call id (requested_quality args) temp_dir) (fs w1) = (r, fs2) ->
  download_playlist deezer id args w
  = let w2 := with_call (with_record w1 INFO (playlist_start id (requested_quality args)))
                        (playlist_call id (requested_quality args) temp_dir) fs2 in
    match r with
    | Raise e =>
        (Json 500 (playlist_error e), with_record w2 ERROR (playlist_error_record e))
    | Ok _ =>
        match discovered fs2 temp_dir with
        | [] => (Json 500 msg_no_files, w2)
        | _ :: _ =>
            finish (archive_steps temp_dir (playlist_zip id) (discovered fs2 temp_dir)
                      (playlist_packed (length (discovered fs2 temp_dir))))
                   playlist_error_record playlist_error w2
        end
    end.
Proof.
  intros [Hq Hd] Hmk Hcall. apply str_in_In in Hq. unfold requested_quality in *.
  enter_run Hq Hd Hmk Hcall w.
  destruct r as [[]|e]; [|reflexivity].
  cbv zeta. unfold bind at 1, find_audio_files at 1. cbn [fs with_call].
  destruct (discovered fs2 temp_dir) as [|first others]; reflexivity.
Qed.

End Runs.

(** *** No request is answered with an attachment *)

Lemma handle_never_attaches (body : M response) (record msg : exn -> pystr) (w : world) :
  returns (fun r => ~ is_attachment r) body ->
  ~ is_attachment
      (fst (handle body (fun e => logger_error (record e) ;; ret (Json 500 (msg e))) w)).
Proof.
  intros Hb. rewrite handle_finish. unfold finish.
  destruct (body w) as [[r|e] w'] eqn:E; cbn [fst]; [exact (Hb _ _ _ E)|intros []].
Qed.

Ltac solve_json :=
  repeat first
    [ apply returns_ret; exact (fun H => H)
    | apply returns_call_after_request
    | eapply returns_bind; [apply returns_any|intros ? _]
    | match goal with
      | |- returns _ (if ?b then _ else _) => destruct b
      | |- returns _ (match ?x with _ => _ end) => destruct x
      end ].

Section NoSuccess.

Variable deezer : provider_call -> node -> outcome unit * node.

Lemma download_song_never_attaches (id : pystr) (args : query) (w : world) :
  ~ is_attachment (fst (download_song deezer id args w)).
Proof.
  unfold download_song. apply handle_never_attaches. cbv zeta. solve_json.
Qed.

Lemma download_album_never_attaches (id : pystr) (args : query) (w : world) :
  ~ is_attachment (fst (download_album deezer id args w)).
Proof.
  unfold download_album. apply handle_never_attaches. cbv zeta. solve_json.
Qed.

Lemma download_playlist_never_attaches (id : pystr) (args : query) (w : world) :
  ~ is_attachment (fst (download_playlist deezer id args w)).
Proof.
  unfold download_playlist. apply handle_never_attaches. cbv zeta. solve_json.
Qed.

End NoSuccess.

(** C6 (a defect of the code). No album or playlist request is answered
    with an archive: [response.call_after_request] raises
    [AttributeError] once the archive is written, and the [except]
    clause answers 500. On the album of three files in nested
    directories, the archive [album_302127.zip] is written in the work
    directory with the three files under their relative paths, and the
    answer is that 500; likewise for the playlist. *)
Theorem collection_archive_is_never_sent :
  (forall deezer id args w,
      ~ is_attachment (fst (download_album deezer id args w))
      /\ ~ is_attachment (fst (download_playlist deezer id args w)))
  /\ (fst album_run = Json 500 (album_error attribute_error)
      /\ fs_lookup (fs (snd album_run))
                   (path_join demo_temp_dir (album_zip (lit "302127")))
         = Some (File (ZipArchive
              [([lit "03 - Outro.flac"], Blob [102; 76; 97; 67]);
               ([lit "Artist - Album"; lit "01 - Intro.mp3"], Blob [73; 68; 51; 1]);
               ([lit "Artist - Album"; lit "CD2"; lit "02 - Theme.mp3"],
                Blob [73; 68; 51; 2])])))
  /\ (fst playlist_run = Json 500 (playlist_error attribute_error)
      /\ fs_lookup (fs (snd playlist_run))
                   (path_join demo_temp_dir (playlist_zip (lit "908622995")))
         = Some (File (ZipArchive
              [([lit "03 - Outro.flac"], Blob [102; 76; 97; 67]);
               ([lit "Artist - Album"; lit "01 - Intro.mp3"], Blob [73; 68; 51; 1]);
               ([lit "Artist - Album"; lit "CD2"; lit "02 - Theme.mp3"],
                Blob [73; 68; 51; 2])]))).
Proof.
  split; [|split].
  - intros deezer id args w. split.
    + apply download_album_never_attaches.
    + apply download_playlist_never_attaches.
  - split; vm_compute; reflexivity.
  - split; vm_compute; reflexivity.
Qed.

(** C7 (a defect of the code). No track request is answered with an
    attachment. On the track whose provider file is [AC:DC - Best?.mp3],
    requested at quality [FLAC], the file is renamed to
    [AC_DC - Best_.flac], the name that was to be sent, the success
    record is logged with that name, and the answer is the 500 of the
    [except] clause, with the text of the [AttributeError]. *)
Theorem song_attachment_is_never_sent :
  (forall deezer id args w, ~ is_attachment (fst (download_song deezer id args w)))
  /\ fst song_run = Json 500 (song_error attribute_error)
  /\ fs (snd song_run)
     = fs_after [(lit "AC_DC - Best_.flac", File (Blob [73; 68; 51; 4]))]
  /\ log (snd song_run)
     = [(INFO, song_start (lit "3135556") (lit "FLAC"));
        (INFO, lit "Canci" ++ [o_acute] ++ lit "n descargada exitosamente: "
                   ++ lit "AC_DC - Best_.flac");
        (ERROR, song_error_record attribute_error)].
Proof.
  split; [|split; [|split]].
  - intros deezer id args w. apply download_song_never_attaches.
  - vm_compute. reflexivity.
  - vm_compute. reflexivity.
  - vm_compute. reflexivity.
Qed.


(** ** What is left behind *)


Lemma same_outside_record (p : path) (fs2 : node) (w : world) (lvl : level)
      (msg : pystr) :
  same_outside p fs2 w -> same_outside p fs2 (with_record w lvl msg).
Proof. intros H. exact H. Qed.

Section LeftBehind.

Variable deezer : provider_call -> node -> outcome unit * node.


(** X8. When an album or playlist request gets as far as the
    [AttributeError] of [response.call_after_request], the archive is
    left in the work directory under its name, and it holds the
    discovered artifacts and nothing else: one member for each, in the
    order of discovery, under its path relative to the work directory,
    with the content the provider wrote. *)
Theorem collection_archive_is_left_on_disk
        (id : pystr) (args : query) (w w1 : world) (temp_dir : path) (fs2 : node) :
  valid_request id args ->
  mkdtemp w = (Ok temp_dir, w1) ->
  unique_names fs2 = true ->
  (deezer (album_call id (requested_quality args) temp_dir) (fs w1) = (Ok tt, fs2) ->
   fst (download_album deezer id args w) = Json 500 (album_error attribute_error) ->
   archived temp_dir (album_zip id) fs2 (fs (snd (download_album deezer id args w))))
  /\ (deezer (playlist_call id (requested_quality args) temp_dir) (fs w1) = (Ok tt, fs2) ->
      fst (download_playlist deezer id args w)
      = Json 500 (playlist_error attribute_error) ->
      archived temp_dir (playlist_zip id) fs2
               (fs (snd (download_playlist deezer id args w)))).
Proof.
  intros Hv Hmk Hu. split; intros Hcall Hans.
  - rewrite (download_album_run deezer _ _ _ _ _ _ _ Hv Hmk Hcall) in *.
    cbv zeta in *.
    destruct (discovered fs2 temp_dir) as [|first others] eqn:Hdisc;
      [vm_compute in Hans; discriminate Hans|].
    rewrite <- Hdisc in *. unfold finish in *.
    match type of Hans with
    | context [archive_steps ?d ?z ?l ?m ?w2] =>
        destruct (archive_steps d z l m w2) as [[r|e] w'] eqn:E
    end.
    + exfalso. exact (archive_steps_raises _ _ _ _ _ _ _ E).
    + cbn [fst snd fs with_record] in *. injection Hans as He.
      subst e.
      apply archive_steps_attribute_error in E as (rels & members & H1 & H2 & H3 & H4 & _);
        [|exact Hu|unfold album_zip; rewrite app_assoc; apply zip_name_not_audio].
      cbn [fs with_call] in *. exists rels, members.
      split; [exact H1|]. split; [|repeat split; assumption].
      intros ->. rewrite Hdisc in H1. discriminate H1.
  - rewrite (download_playlist_run deezer _ _ _ _ _ _ _ Hv Hmk Hcall) in *.
    cbv zeta in *.
    destruct (discovered fs2 temp_dir) as [|first others] eqn:Hdisc;
      [vm_compute in Hans; discriminate Hans|].
    rewrite <- Hdisc in *. unfold finish in *.
    match type of Hans with
    | context [archive_steps ?d ?z ?l ?m ?w2] =>
        destruct (archive_steps d z l m w2) as [[r|e] w'] eqn:E
    end.
    + exfalso. exact (archive_steps_raises _ _ _ _ _ _ _ E).
    + cbn [fst snd fs with_record] in *. injection Hans as He.
      subst e.
      apply archive_steps_attribute_error in E as (rels & members & H1 & H2 & H3 & H4 & _);
        [|exact Hu|unfold playlist_zip; rewrite app_assoc; apply zip_name_not_audio].
      cbn [fs with_call] in *. exists rels, members.
      split; [exact H1|]. split; [|repeat split; assumption].
      intros ->. rewrite Hdisc in H1. discriminate H1.
Qed.

(** X9. No handler removes its work directory. Once the directory is
    made, whatever the provider does, returning or raising, as long as
    it leaves a directory there, and whatever the handler answers, the
    directory is still there when the handler returns. *)
Theorem work_dir_is_never_removed
        (id : pystr) (args : query) (w w1 : world) (temp_dir : path)
        (r : outcome unit) (fs2 : node) :
  valid_request id args ->
  mkdtemp w = (Ok temp_dir, w1) ->
  (exists es, fs_lookup fs2 temp_dir = Some (Dir es)) ->
  (deezer (track_call id (requested_quality args) temp_dir) (fs w1) = (r, fs2) ->
   is_dir_at temp_dir (snd (download_song deezer id args w)))
  /\ (deezer (album_call id (requested_quality args) temp_dir) (fs w1) = (r, fs2) ->
      is_dir_at temp_dir (snd (download_album deezer id args w)))
  /\ (deezer (playlist_call id (requested_quality args) temp_dir) (fs w1) = (r, fs2) ->
      is_dir_at temp_dir (snd (download_playlist deezer id args w))).
Proof.
  intros Hv Hmk Hdir. (split; [|split]); intros Hcall.
  - rewrite (download_song_run deezer _ _ _ _ _ _ _ Hv Hmk Hcall). cbv zeta.
    destruct r as [[]|e]; [|exact Hdir].
    destruct (discovered fs2 temp_dir) as [|first others] eqn:Hdisc; [exact Hdir|].
    assert (Hin : In first (discovered fs2 temp_dir)) by (rewrite Hdisc; now left).
    apply discovered_sound in Hin as (n & rel & c & _ & -> & Hrel & _ & _).
    apply finish_preserves; [|apply is_dir_at_record|exact Hdir].
    apply song_steps_preserves; [|apply is_dir_at_record].
    now apply dir_os_rename.
  - rewrite (download_album_run deezer _ _ _ _ _ _ _ Hv Hmk Hcall). cbv zeta.
    destruct r as [[]|e]; [|exact Hdir].
    destruct (discovered fs2 temp_dir) as [|first others]; [exact Hdir|].
    apply finish_preserves; [|apply is_dir_at_record|exact Hdir].
    apply archive_steps_preserves;
      [apply dir_zipfile_open|intros f arcname; apply dir_zipf_write
      |apply is_dir_at_record].
  - rewrite (download_playlist_run deezer _ _ _ _ _ _ _ Hv Hmk Hcall). cbv zeta.
    destruct r as [[]|e]; [|exact Hdir].
    destruct (discovered fs2 temp_dir) as [|first others]; [exact Hdir|].
    apply finish_preserves; [|apply is_dir_at_record|exact Hdir].
    apply archive_steps_preserves;
      [apply dir_zipfile_open|intros f arcname; apply dir_zipf_write
      |apply is_dir_at_record].
Qed.

(** X14. An album or playlist request changes nothing in the filesystem
    but its archive. Once the provider has returned or raised, whatever
    the handler answers, every path that is neither the path of the
    archive, nor above it, nor below it, leads to what the provider left
    there. *)
Theorem collection_changes_only_the_archive
        (id : pystr) (args : query) (w w1 : world) (temp_dir : path)
        (r : outcome unit) (fs2 : node) :
  valid_request id args ->
  mkdtemp w = (Ok temp_dir, w1) ->
  (deezer (album_call id (requested_quality args) temp_dir) (fs w1) = (r, fs2) ->
   forall q, apart (path_join temp_dir (album_zip id)) q ->
             fs_lookup (fs (snd (download_album deezer id args w))) q = fs_lookup fs2 q)
  /\ (deezer (playlist_call id (requested_quality args) temp_dir) (fs w1) = (r, fs2) ->
      forall q, apart (path_join temp_dir (playlist_zip id)) q ->
                fs_lookup (fs (snd (download_playlist deezer id args w))) q
                = fs_lookup fs2 q).
Proof.
  intros Hv Hmk. split; intros Hcall.
  - change (same_outside (path_join temp_dir (album_zip id)) fs2
                         (snd (download_album deezer id args w))).
    rewrite (download_album_run deezer _ _ _ _ _ _ _ Hv Hmk Hcall). cbv zeta.
    destruct r as [[]|e]; [|intros q _; reflexivity].
    destruct (discovered fs2 temp_dir) as [|first others]; [intros q _; reflexivity|].
    apply finish_preserves;
      [|apply same_outside_record|intros q _; reflexivity].
    apply archive_steps_preserves;
      [apply outside_zipfile_open|intros f arcname; apply outside_zipf_write
      |apply same_outside_record].
  - change (same_outside (path_join temp_dir (playlist_zip id)) fs2
                         (snd (download_playlist deezer id args w))).
    rewrite (download_playlist_run deezer _ _ _ _ _ _ _ Hv Hmk Hcall). cbv zeta.
    destruct r as [[]|e]; [|intros q _; reflexivity].
    destruct (discovered fs2 temp_dir) as [|first others]; [intros q _; reflexivity|].
    apply finish_preserves;
      [|apply same_outside_record|intros q _; reflexivity].
    apply archive_steps_preserves;
      [apply outside_zipfile_open|intros f arcname; apply outside_zipf_write
      |apply same_outside_record].
Qed.

End LeftBehind.


(** ** More on [sanitize_filename] *)

(** X15. [sanitize_filename] returns its argument exactly when the argument
    holds none of the nine characters. *)
Theorem sanitize_filename_fixes_clean_names (s : pystr) :
  sanitize_filename s = s <-> forall c, In c s -> ~ In c forbidden_chars.
Proof.
  rewrite sanitize_filename_map. split.
  - intros E c Hin Hf. apply is_forbidden_In in Hf.
    induction s as [|x s IH]; [destruct Hin|].
    cbn [map] in E. injection E as Ex Es.
    destruct Hin as [->|Hin]; [|now apply IH].
    rewrite Hf in Ex. subst c. discriminate Hf.
  - intros H. induction s as [|x s IH]; [reflexivity|].
    cbn [map]. rewrite IH by (intros c Hin; apply H; now right).
    destruct (is_forbidden x) eqn:E; [|reflexivity].
    exfalso. apply (H x); [now left|now apply is_forbidden_In].
Qed.

(** Sanitizing a name made of two parts is sanitizing the parts. *)
Lemma sanitize_filename_app (a b : pystr) :
  sanitize_filename (a ++ b) = sanitize_filename a ++ sanitize_filename b.
Proof. rewrite !sanitize_filename_map. apply map_app. Qed.

(** ** Concrete runs of the further properties *)

Lemma valid_demo_request : valid_request (lit "3135556") [].
Proof. split; [right; left; reflexivity|reflexivity]. Defined.

Lemma provider_called_once_witness :
  provider_calls
    (snd (download_song (provider_writing one_track) (lit "3135556") []
                        demo_world))
  = [track_call (lit "3135556") (lit "MP3_320") demo_temp_dir].
Proof.
  destruct mkdtemp_demo_world as (w1 & Hmk & _).
  destruct (provider_called_once (provider_writing one_track)
              (lit "3135556") [] demo_world w1 demo_temp_dir
              valid_demo_request Hmk) as (Hsong & _ & _).
  exact Hsong.
Defined.

Lemma mkdtemp_failure_is_500_witness :
  fst (download_album (provider_writing three_tracks) (lit "3135556") []
                      no_names_world)
  = Json 500 (lit "Error al descargar el " ++ [a_acute] ++ lit "lbum: "
                  ++ lit "[Errno 17] No usable temporary directory name found")
  /\ provider_calls
       (snd (download_album (provider_writing three_tracks) (lit "3135556") []
                            no_names_world))
     = [].
Proof.
  destruct (mkdtemp_failure_is_500
              (provider_writing three_tracks) (lit "3135556") []
              no_names_world no_names_world
              (lit "[Errno 17] No usable temporary directory name found")
              valid_demo_request eq_refl) as (_ & (Hr & _ & Hcalls) & _).
  split; [exact Hr|exact Hcalls].
Defined.

Lemma provider_failure_is_500_and_nothing_is_removed_witness :
  fst (download_song failing_provider (lit "3135556") [] demo_world)
  = Json 500 (lit "Error al descargar la canci" ++ [o_acute] ++ lit "n: "
                  ++ lit "Track not found")
  /\ fs_lookup
       (fs (snd (download_song failing_provider (lit "3135556") []
                               demo_world)))
       demo_temp_dir
     = Some (Dir []).
Proof.
  destruct mkdtemp_demo_world as (w1 & Hmk & Hfs).
  destruct (provider_failure_is_500_and_nothing_is_removed
              failing_provider (lit "3135556") [] demo_world w1
              demo_temp_dir (lit "Track not found") (fs_after [])
              valid_demo_request Hmk) as (Hsong & _ & _).
  destruct Hsong as (Hr & Hleft).
  - rewrite Hfs. reflexivity.
  - split; [exact Hr|]. rewrite Hleft. reflexivity.
Defined.

Lemma no_artifacts_and_nothing_is_removed_witness :
  fs (snd (download_playlist (provider_writing cover_only) (lit "3135556") []
                             demo_world))
  = fs_after cover_only
  /\ log (snd (download_playlist (provider_writing cover_only) (lit "3135556") []
                                 demo_world))
     = [(INFO, playlist_start (lit "3135556") (lit "MP3_320"))].
Proof.
  destruct mkdtemp_demo_world as (w1 & Hmk & Hfs).
  destruct (no_artifacts_and_nothing_is_removed
              (provider_writing cover_only) (lit "3135556") [] demo_world w1
              demo_temp_dir (fs_after cover_only)
              valid_demo_request Hmk eq_refl) as (_ & _ & Hplaylist).
  destruct Hplaylist as (Hleft & Hlog).
  - rewrite Hfs. reflexivity.
  - split; [exact Hleft|exact Hlog].
Defined.


Lemma valid_album_request : valid_request (lit "302127") [].
Proof. split; [right; left; reflexivity|reflexivity]. Defined.


Lemma album_run_provider :
  forall w1, fs w1 = fs_after [] ->
  provider_writing three_tracks
    (album_call (lit "302127") (requested_quality []) demo_temp_dir) (fs w1)
  = (Ok tt, fs_after three_tracks).
Proof. intros w1 ->. reflexivity. Defined.

Lemma absent_quality_defaults_to_standard_witness :
  download_song (provider_writing one_track) (lit "3135556")
                [(lit "format", lit "zip")] demo_world
  = download_song (provider_writing one_track) (lit "3135556")
                  [(lit "quality", lit "MP3_320"); (lit "format", lit "zip")] demo_world
  /\ fst (download_song (provider_writing one_track) (lit "3135556")
                        [(lit "format", lit "zip")] demo_world)
     <> Json 400 msg_invalid_quality
  /\ provider_calls
       (snd (download_song (provider_writing one_track) (lit "3135556")
                           [(lit "format", lit "zip")] demo_world))
     = [track_call (lit "3135556") (lit "MP3_320") demo_temp_dir].
Proof.
  assert (Habs : forall v, ~ In (lit "quality", v) [(lit "format", lit "zip")]).
  { intros v [H|[]]. vm_compute in H. discriminate H. }
  pose proof (absent_quality_defaults_to_standard
                (provider_writing one_track) (lit "3135556")
                [(lit "format", lit "zip")] demo_world Habs) as H.
  cbv zeta in H. destruct H as (_ & _ & Hs & _ & _ & (Hn & _ & _) & Hp).
  split; [exact Hs|]. split; [exact Hn|].
  destruct mkdtemp_demo_world as (w1 & Hmk & _).
  destruct (Hp eq_refl) as (_ & Hcalls).
  destruct (Hcalls _ _ Hmk) as (Hc & _). exact Hc.
Defined.


Lemma collection_archive_is_left_on_disk_witness :
  archived demo_temp_dir (album_zip (lit "302127")) (fs_after three_tracks)
           (fs (snd album_run)).
Proof.
  destruct mkdtemp_demo_world as (w1 & Hmk & Hfs).
  destruct (collection_archive_is_left_on_disk
              (provider_writing three_tracks) (lit "302127") []
              demo_world w1 demo_temp_dir (fs_after three_tracks)
              valid_album_request Hmk eq_refl) as [Halbum _].
  apply Halbum; [exact (album_run_provider _ Hfs)|vm_compute; reflexivity].
Defined.

Lemma work_dir_is_never_removed_witness :
  is_dir_at demo_temp_dir (snd nested_run)
  /\ is_dir_at demo_temp_dir (snd album_run).
Proof.
  destruct mkdtemp_demo_world as (w1 & Hmk & Hfs).
  split.
  - destruct (work_dir_is_never_removed
                (provider_writing nested_track) (lit "3135556") []
                demo_world w1 demo_temp_dir (Ok tt) (fs_after nested_track)
                valid_demo_request Hmk) as (Hsong & _ & _).
    + eexists. reflexivity.
    + apply Hsong. rewrite Hfs. reflexivity.
  - destruct (work_dir_is_never_removed
                (provider_writing three_tracks) (lit "302127") []
                demo_world w1 demo_temp_dir (Ok tt) (fs_after three_tracks)
                valid_album_request Hmk) as (_ & Halbum & _).
    + eexists. reflexivity.
    + apply Halbum. exact (album_run_provider _ Hfs).
Defined.

Lemma collection_changes_only_the_archive_witness :
  fs_lookup (fs (snd album_run)) (path_join demo_temp_dir (lit "03 - Outro.flac"))
  = Some (File (Blob [102; 76; 97; 67])).
Proof.
  destruct mkdtemp_demo_world as (w1 & Hmk & Hfs).
  destruct (collection_changes_only_the_archive
              (provider_writing three_tracks) (lit "302127") []
              demo_world w1 demo_temp_dir (Ok tt) (fs_after three_tracks)
              valid_album_request Hmk) as [Halbum _].
  unfold album_run.
  rewrite (Halbum (album_run_provider _ Hfs)
                  (path_join demo_temp_dir (lit "03 - Outro.flac"))).
  - reflexivity.
  - split; intros q E; vm_compute in E; discriminate E.
Defined.
